(** * Log monitor bot: a shallow embedding of [log_monitor_bot.py]

    The bot tails a text log file, matches each new line against the
    configured regular expressions, collects the matches in
    [pending_logs] and posts them to a chat in batches.

    Python values are modelled as follows.
    - [str]: a list of Unicode code points ([pystr]); [len] is [length].
    - file contents: a list of bytes, decoded as strict UTF-8.
    - the object [self]: the record [Bot], passed explicitly.
    - the outside world (network, file system, clock): an environment of
      oracles indexed by the number of interactions made so far, together
      with a trace of the interactions the program performed.

    Not modelled: console output ([print] is taken to succeed), the
    rounding of the floating-point clock (readings are integers), and an
    interrupt arriving in the middle of an iteration ([KeyboardInterrupt]
    is delivered between two iterations of the loop). *)

From Stdlib Require Import String Ascii Strings.Byte.
From Stdlib Require Import List ZArith NArith Lia Bool Arith.
Import ListNotations.

Set Implicit Arguments.

(** ** Python strings *)

Module PyStr.

(** A code point. *)
Definition char := N.
Definition pystr := list char.

Definition is_cont (n : N) : bool := ((0x80 <=? n) && (n <=? 0xBF))%N.
Definition in_range (lo hi n : N) : bool := ((lo <=? n) && (n <=? hi))%N.

Definition cons_opt (c : char) (r : option pystr) : option pystr :=
  match r with
  | Some t => Some (c :: t)
  | None => None
  end.

(** The strict [utf-8] codec used by [open(..., encoding='utf-8')]:
    overlong forms, surrogates, values above U+10FFFF and truncated
    sequences are errors ([None] stands for [UnicodeDecodeError]). *)
Fixpoint utf8_decode (bs : list byte) : option pystr :=
  match bs with
  | [] => Some []
  | b1 :: t1 =>
    let n1 := Byte.to_N b1 in
    if (n1 <? 0x80)%N then cons_opt n1 (utf8_decode t1)
    else if in_range 0xC2 0xDF n1 then
      match t1 with
      | b2 :: t2 =>
        let n2 := Byte.to_N b2 in
        if is_cont n2
        then cons_opt ((n1 - 0xC0) * 64 + (n2 - 0x80))%N (utf8_decode t2)
        else None
      | _ => None
      end
    else if in_range 0xE0 0xEF n1 then
      match t1 with
      | b2 :: b3 :: t3 =>
        let n2 := Byte.to_N b2 in
        let n3 := Byte.to_N b3 in
        let lo := if (n1 =? 0xE0)%N then 0xA0%N else 0x80%N in
        let hi := if (n1 =? 0xED)%N then 0x9F%N else 0xBF%N in
        if in_range lo hi n2 && is_cont n3
        then cons_opt ((n1 - 0xE0) * 4096 + (n2 - 0x80) * 64 + (n3 - 0x80))%N
                      (utf8_decode t3)
        else None
      | _ => None
      end
    else if in_range 0xF0 0xF4 n1 then
      match t1 with
      | b2 :: b3 :: b4 :: t4 =>
        let n2 := Byte.to_N b2 in
        let n3 := Byte.to_N b3 in
        let n4 := Byte.to_N b4 in
        let lo := if (n1 =? 0xF0)%N then 0x90%N else 0x80%N in
        let hi := if (n1 =? 0xF4)%N then 0x8F%N else 0xBF%N in
        if in_range lo hi n2 && is_cont n3 && is_cont n4
        then cons_opt ((n1 - 0xF0) * 262144 + (n2 - 0x80) * 4096
                       + (n3 - 0x80) * 64 + (n4 - 0x80))%N
                      (utf8_decode t4)
        else None
      | _ => None
      end
    else None
  end.

(** A source literal: the literal's UTF-8 bytes, decoded. *)
Definition py (s : string) : pystr :=
  match utf8_decode (list_byte_of_string s) with
  | Some t => t
  | None => []
  end.

(** ["\n"] *)
Definition nl : pystr := [10%N].

(** [str(n)] for a non-negative integer. *)
Definition digit_char (d : N) : char := (48 + d)%N.

Fixpoint uint_chars (u : Decimal.uint) : pystr :=
  match u with
  | Decimal.Nil => []
  | Decimal.D0 r => digit_char 0 :: uint_chars r
  | Decimal.D1 r => digit_char 1 :: uint_chars r
  | Decimal.D2 r => digit_char 2 :: uint_chars r
  | Decimal.D3 r => digit_char 3 :: uint_chars r
  | Decimal.D4 r => digit_char 4 :: uint_chars r
  | Decimal.D5 r => digit_char 5 :: uint_chars r
  | Decimal.D6 r => digit_char 6 :: uint_chars r
  | Decimal.D7 r => digit_char 7 :: uint_chars r
  | Decimal.D8 r => digit_char 8 :: uint_chars r
  | Decimal.D9 r => digit_char 9 :: uint_chars r
  end.

Definition str_of_nat (n : nat) : pystr := uint_chars (Nat.to_uint n).

(** [sep.join(parts)] *)
Fixpoint join (sep : pystr) (parts : list pystr) : pystr :=
  match parts with
  | [] => []
  | [p] => p
  | p :: rest => p ++ sep ++ join sep rest
  end.

(** [s * n] *)
Fixpoint repeat_str (s : pystr) (n : nat) : pystr :=
  match n with
  | O => []
  | S k => s ++ repeat_str s k
  end.

(** [str.isspace] on one code point: the characters removed by
    [str.strip()] called without argument. *)
Definition isspace (c : char) : bool :=
  (in_range 0x09 0x0D c || in_range 0x1C 0x20 c || (c =? 0x85) || (c =? 0xA0)
   || (c =? 0x1680) || in_range 0x2000 0x200A c || (c =? 0x2028)
   || (c =? 0x2029) || (c =? 0x202F) || (c =? 0x205F) || (c =? 0x3000))%N.

Fixpoint lstrip (s : pystr) : pystr :=
  match s with
  | [] => []
  | c :: t => if isspace c then lstrip t else s
  end.

Definition rstrip (s : pystr) : pystr := rev (lstrip (rev s)).

(** [s.strip()] *)
Definition strip (s : pystr) : pystr := rstrip (lstrip s).

(** Universal-newline translation of a text-mode file opened with the
    default [newline=None]: ["\r\n"] and a lone ["\r"] both read as
    ["\n"]. *)
Fixpoint translate_newlines (s : pystr) : pystr :=
  match s with
  | [] => []
  | c :: t =>
    if (c =? 13)%N then
      match t with
      | c' :: t' => if (c' =? 10)%N then 10%N :: translate_newlines t'
                    else 10%N :: translate_newlines t
      | [] => [10%N]
      end
    else c :: translate_newlines t
  end.

(** Lines of a text, each with its terminating ["\n"] kept; [cur] is the
    line being accumulated, in reverse. *)
Fixpoint split_lines (cur : pystr) (s : pystr) : list pystr :=
  match s with
  | [] => match cur with [] => [] | _ => [rev cur] end
  | c :: t =>
    if (c =? 10)%N then rev (c :: cur) :: split_lines [] t
    else split_lines (c :: cur) t
  end.

(** [f.readlines()] on the decoded remainder of the file. *)
Definition readlines (text : pystr) : list pystr :=
  split_lines [] (translate_newlines text).

End PyStr.
Import PyStr.

(** ** The [re] module

    The regular-expression engine is a library the bot only calls; it is
    taken as an interface.  [re.compile] returns a pattern object,
    raises [re.error], or raises another exception (for instance
    [OverflowError] on a repeat count too large, [RecursionError] on
    deep nesting), named by its class.  [re_search r s] tells whether
    [r.search(s)] returns a match object (always truthy) rather than
    [None]. *)

Inductive compiled (R : Type) :=
| Compiled (r : R)
| ReError
| CompileRaises (exception : pystr).

Arguments Compiled {R} r.
Arguments ReError {R}.
Arguments CompileRaises {R} exception.

Class RegexEngine := {
  regex : Type;
  re_compile : pystr -> compiled regex;
  re_search : regex -> pystr -> bool
}.

(** ** Configuration

    The dictionary loaded from [config.yaml].  Keys read with
    [.get(key, default)] are optional; a filter's ['name'] and
    ['pattern'] are read with [f_config[...]], which raises [KeyError]
    when the key is absent. *)

Record FilterConfig := {
  fc_name : option pystr;
  fc_pattern : option pystr;
  fc_enabled : option bool
}.

Record Config := {
  cfg_bot_token : pystr;
  cfg_chat_id : pystr;
  cfg_log_file : pystr;
  cfg_filters : list FilterConfig;
  cfg_check_interval : option Z;
  cfg_batch_size : option Z;
  cfg_batch_timeout : option Z
}.

(** The exceptions that leave the code: [KeyError], and any other
    exception, named by its class. *)
Inductive exn :=
| KeyError (key : pystr)
| Uncaught (exception : pystr).

(** ** The outside world *)

(** Outcome of [requests.post(url, json=payload, timeout=10)]. *)
Inductive post_reply :=
| PostRaises
| PostStatus (status_code : Z).

(** Body of a [getMe] response: [response.json()] raises, or yields a
    dictionary whose ['ok'] entry has the given truth value and which
    has, or lacks, a dictionary under ['result']. *)
Inductive getme_body :=
| BodyInvalid
| BodyJson (ok : bool) (has_result : bool).

(** Outcome of [requests.get(url, timeout=5)]. *)
Inductive getme_reply :=
| GetRaises
| GetStatus (status_code : Z) (body : getme_body).

(** What one poll finds at [log_file]: no file, a file that cannot be
    opened or read, or the bytes of the file. *)
Inductive fs_obs :=
| Absent
| Unreadable
| Present (content : list byte).

(** The answers of the world, indexed by the number of interactions the
    program has made before.  Clock readings are integers in a fixed
    unit; [batch_timeout] is in the same unit. *)
Record Env := {
  env_getme : nat -> getme_reply;
  env_post : nat -> pystr -> post_reply;
  env_file : nat -> fs_obs;
  env_time : nat -> Z;
  env_strftime : nat -> pystr
}.

(** What the program did to the world. *)
Inductive event :=
| EvGetMe (ok : bool)
| EvPost (text : pystr) (ok : bool)
| EvNoFile
| EvReadFailed
| EvRead (offset : nat) (content : list byte)
| EvSleep (secs : Z).

(** [w_trace] lists the events newest first. *)
Record World := {
  w_step : nat;
  w_trace : list event
}.

Definition world0 : World := {| w_step := 0; w_trace := [] |}.

(** The request returned, with status 200. *)
Definition post_ok (r : post_reply) : bool :=
  match r with
  | PostStatus c => (c =? 200)%Z
  | PostRaises => false
  end.

(** The request returned with status 200 and a JSON body whose ['ok']
    is truthy; reading ['result'] from a body that lacks it raises
    inside the [try], which gives false like every other exception. *)
Definition getme_ok (r : getme_reply) : bool :=
  match r with
  | GetRaises => false
  | GetStatus c body =>
    if (c =? 200)%Z then
      match body with
      | BodyInvalid => false
      | BodyJson ok_field has_result => ok_field && has_result
      end
    else false
  end.

(** The exception [time.sleep(secs)] raises for a whole number of
    seconds: [ValueError] for a negative one, [OverflowError] when the
    interval in nanoseconds does not fit a signed 64-bit integer. *)
Definition sleep_error (secs : Z) : option pystr :=
  if (secs <? 0)%Z then Some (py "ValueError")
  else if (9223372036 <? secs)%Z then Some (py "OverflowError")
  else None.

(** ** The bot *)

Section LogMonitorBot.

Context {RE : RegexEngine}.

(** An entry of [self.filters]. *)
Record Filter := {
  f_name : pystr;
  f_pattern : regex
}.

(** The fields of [self]. *)
Record Bot := {
  log_file : pystr;
  filters : list Filter;
  check_interval : Z;
  batch_size : Z;
  batch_timeout : Z;
  last_position : nat;
  pending_logs : list pystr;
  last_send_time : Z;
  total_logs_sent : nat
}.

Definition set_last_position (p : nat) (s : Bot) : Bot :=
  {| log_file := log_file s; filters := filters s;
     check_interval := check_interval s; batch_size := batch_size s;
     batch_timeout := batch_timeout s;
     last_position := p;
     pending_logs := pending_logs s; last_send_time := last_send_time s;
     total_logs_sent := total_logs_sent s |}.

Definition set_pending_logs (l : list pystr) (s : Bot) : Bot :=
  {| log_file := log_file s; filters := filters s;
     check_interval := check_interval s; batch_size := batch_size s;
     batch_timeout := batch_timeout s;
     last_position := last_position s;
     pending_logs := l; last_send_time := last_send_time s;
     total_logs_sent := total_logs_sent s |}.

Definition set_last_send_time (t : Z) (s : Bot) : Bot :=
  {| log_file := log_file s; filters := filters s;
     check_interval := check_interval s; batch_size := batch_size s;
     batch_timeout := batch_timeout s;
     last_position := last_position s;
     pending_logs := pending_logs s; last_send_time := t;
     total_logs_sent := total_logs_sent s |}.

Definition set_total_logs_sent (n : nat) (s : Bot) : Bot :=
  {| log_file := log_file s; filters := filters s;
     check_interval := check_interval s; batch_size := batch_size s;
     batch_timeout := batch_timeout s;
     last_position := last_position s;
     pending_logs := pending_logs s; last_send_time := last_send_time s;
     total_logs_sent := n |}.

(** [f_config.get('enabled', True)] *)
Definition fc_is_enabled (fc : FilterConfig) : bool :=
  match fc_enabled fc with
  | Some b => b
  | None => true
  end.

(** [compile_filters]: the enabled rules whose pattern compiles, in
    configuration order.  The dictionary literal reads ['name'] before
    ['pattern'] is compiled; only [re.error] is caught, any other
    exception of [re.compile] leaves the function. *)
Fixpoint compile_filters (fcs : list FilterConfig) : exn + list Filter :=
  match fcs with
  | [] => inr []
  | f_config :: rest =>
    if fc_is_enabled f_config then
      match fc_name f_config with
      | None => inl (KeyError (py "name"))
      | Some name =>
        match fc_pattern f_config with
        | None => inl (KeyError (py "pattern"))
        | Some pattern =>
          match re_compile pattern with
          | Compiled r =>
            match compile_filters rest with
            | inr fs => inr ({| f_name := name; f_pattern := r |} :: fs)
            | inl e => inl e
            end
          | ReError => compile_filters rest
          | CompileRaises e => inl (Uncaught e)
          end
        end
      end
    else compile_filters rest
  end.

Definition get_default (o : option Z) (d : Z) : Z :=
  match o with
  | Some v => v
  | None => d
  end.

(** [__init__], after [load_config]; [now] is the reading of
    [time.time()] stored in [last_send_time]. *)
Definition init (config : Config) (now : Z) : exn + Bot :=
  match compile_filters (cfg_filters config) with
  | inl e => inl e
  | inr fs =>
    inr {| log_file := cfg_log_file config;
           filters := fs;
           check_interval := get_default (cfg_check_interval config) 1;
           batch_size := get_default (cfg_batch_size config) 10;
           batch_timeout := get_default (cfg_batch_timeout config) 5;
           last_position := 0;
           pending_logs := [];
           last_send_time := now;
           total_logs_sent := 0 |}
  end.

(** [check_log_match] *)
Fixpoint check_log_match (fs : list Filter) (log_line : pystr)
  : bool * option pystr :=
  match fs with
  | [] => (false, None)
  | f :: rest =>
    if re_search (f_pattern f) log_line then (true, Some (f_name f))
    else check_log_match rest log_line
  end.

(** The truncation suffix of [format_log_batch]. *)
Definition truncation_marker : pystr :=
  nl ++ nl ++ py "... (обрезано)".

(** [message[:4000] + marker] when [len(message) > 4000]. *)
Definition truncate (message : pystr) : pystr :=
  if 4000 <? length message
  then firstn 4000 message ++ truncation_marker
  else message.

Definition batch_header (timestamp : pystr) (logs : list pystr) : pystr :=
  (py "🔔 Уведомление о логах" ++ nl)
  ++ (py "Время: " ++ timestamp ++ nl)
  ++ (py "Записей: " ++ str_of_nat (length logs) ++ nl)
  ++ (repeat_str (py "=") 40 ++ nl ++ nl).

(** The message before the length test. *)
Definition natural_message (timestamp : pystr) (logs : list pystr) : pystr :=
  batch_header timestamp logs ++ join (nl ++ nl) logs.

(** [format_log_batch], given the text [timestamp] that
    [datetime.now().strftime(...)] returned. *)
Definition format_log_batch_at (timestamp : pystr) (logs : list pystr)
  : pystr :=
  truncate (natural_message timestamp logs).

(** *** Effects

    A computation transforms the pair of [self] and the world. *)

Variable E : Env.

Definition M (A : Type) : Type := Bot -> World -> A * Bot * World.

Definition ret {A} (a : A) : M A := fun s w => (a, s, w).

Definition bind {A B} (c : M A) (k : A -> M B) : M B :=
  fun s w => let '(a, s1, w1) := c s w in k a s1 w1.

Notation "x <- c ;; k" := (bind c (fun x => k))
  (at level 61, c at next level, right associativity).
Notation "c ;;; k" := (bind c (fun _ => k))
  (at level 61, right associativity).

Definition get : M Bot := fun s w => (s, s, w).
Definition modify (f : Bot -> Bot) : M unit := fun s w => (tt, f s, w).

(** One interaction with the world: its index. *)
Definition interact : M nat :=
  fun s w => (w_step w, s, {| w_step := S (w_step w); w_trace := w_trace w |}).

Definition emit (e : event) : M unit :=
  fun s w => (tt, s, {| w_step := w_step w; w_trace := e :: w_trace w |}).

Definition when (b : bool) (c : M unit) : M unit :=
  if b then c else ret tt.

Definition ignore {A} (c : M A) : M unit := _ <- c ;; ret tt.

(** [time.time()] *)
Definition time_now : M Z :=
  k <- interact ;; ret (env_time E k).

(** [time.sleep(secs)]: the exception it raises, if any. *)
Definition sleep (secs : Z) : M (option pystr) :=
  _ <- interact ;;
  emit (EvSleep secs) ;;;
  ret (sleep_error secs).

(** [send_telegram_message] *)
Definition send_telegram_message (text : pystr) : M bool :=
  k <- interact ;;
  let ok := post_ok (env_post E k text) in
  emit (EvPost text ok) ;;;
  ret ok.

(** [test_connection] *)
Definition test_connection : M bool :=
  k <- interact ;;
  let ok := getme_ok (env_getme E k) in
  emit (EvGetMe ok) ;;;
  ret ok.

(** [format_log_batch] *)
Definition format_log_batch (logs : list pystr) : M pystr :=
  k <- interact ;;
  let timestamp := env_strftime E k in
  ret (format_log_batch_at timestamp logs).

Definition is_empty {A} (l : list A) : bool :=
  match l with
  | [] => true
  | _ => false
  end.

(** [send_pending_logs] *)
Definition send_pending_logs : M bool :=
  s <- get ;;
  if is_empty (pending_logs s) then ret true
  else
    message <- format_log_batch (pending_logs s) ;;
    sent <- send_telegram_message message ;;
    if sent then
      let count := length (pending_logs s) in
      modify (set_total_logs_sent (total_logs_sent s + count)) ;;;
      modify (set_pending_logs []) ;;;
      now <- time_now ;;
      modify (set_last_send_time now) ;;;
      ret true
    else ret false.

(** One round of the [for line in new_lines] loop, on the list that
    becomes [pending_logs]. *)
Definition process_line (fs : list Filter) (pending : list pystr)
  (raw : pystr) : list pystr :=
  let line := strip raw in
  if is_empty line then pending
  else
    match check_log_match fs line with
    | (true, Some filter_name) =>
      pending ++ [py "[" ++ filter_name ++ py "]" ++ nl ++ line]
    | _ => pending
    end.

(** [f.tell()] after [f.seek(pos)] and [f.readlines()] on a file of
    [len] bytes: the end of the file, or [pos] when the file is shorter
    than [pos] and nothing was read. *)
Definition tell_after_read (pos len : nat) : nat := Nat.max pos len.

(** [process_new_lines].  A missing file returns at once.  Any
    exception of [open], [seek], [readlines] (including a decoding
    error) or [tell] is raised before a field of [self] is assigned and
    is caught by [except Exception]. *)
Definition process_new_lines : M unit :=
  k <- interact ;;
  s <- get ;;
  match env_file E k with
  | Absent => emit EvNoFile
  | Unreadable => emit EvReadFailed
  | Present content =>
    match utf8_decode (skipn (last_position s) content) with
    | None => emit EvReadFailed
    | Some text =>
      emit (EvRead (last_position s) content) ;;;
      let new_lines := readlines text in
      let current_position :=
        tell_after_read (last_position s) (length content) in
      modify (set_pending_logs
                (fold_left (process_line (filters s)) new_lines
                           (pending_logs s))) ;;;
      modify (set_last_position current_position) ;;;
      s1 <- get ;;
      when (batch_size s1 <=? Z.of_nat (length (pending_logs s1)))%Z
           (ignore send_pending_logs)
    end
  end.

(** One iteration of [while True]; the result is the exception that
    [time.sleep] raised, if any: nothing else in the body raises. *)
Definition loop_iteration : M (option pystr) :=
  process_new_lines ;;;
  now <- time_now ;;
  s <- get ;;
  let time_since_last_send := (now - last_send_time s)%Z in
  when (negb (is_empty (pending_logs s))
        && (batch_timeout s <=? time_since_last_send)%Z)
       (ignore send_pending_logs) ;;;
  sleep (check_interval s).

(** The loop: it is left by an exception of the body, or by
    [KeyboardInterrupt], which arrives after [ticks] complete
    iterations.  The result is the exception of the body, if any. *)
Fixpoint monitor_loop (ticks : nat) : M (option pystr) :=
  match ticks with
  | O => ret None
  | S n =>
    raised <- loop_iteration ;;
    match raised with
    | Some e => ret (Some e)
    | None => monitor_loop n
    end
  end.

Definition test_msg (s : Bot) : pystr :=
  py "🤖 Бот запущен" ++ nl ++ nl
  ++ py "Файл: " ++ log_file s ++ nl
  ++ py "Фильтров: " ++ str_of_nat (length (filters s)) ++ nl
  ++ py "Статус: Мониторинг активен".

Definition stop_msg (s : Bot) : pystr :=
  py "🛑 Бот остановлен" ++ nl ++ nl
  ++ py "Обнаружено логов: " ++ str_of_nat (total_logs_sent s) ++ nl
  ++ py "До встречи!".

(** The handler [except KeyboardInterrupt] of [run]. *)
Definition shutdown : M unit :=
  s1 <- get ;;
  when (negb (is_empty (pending_logs s1))) (ignore send_pending_logs) ;;;
  s2 <- get ;;
  ignore (send_telegram_message (stop_msg s2)).

(** [run], with the interrupt arriving after [ticks] iterations.  The
    result is [None] when [run] returns and the exception when one
    leaves it: an exception of the loop body other than
    [KeyboardInterrupt] is not handled. *)
Definition run (ticks : nat) : M (option pystr) :=
  connected <- test_connection ;;
  if negb connected then ret None
  else
    s <- get ;;
    started <- send_telegram_message (test_msg s) ;;
    if negb started then ret None
    else
      raised <- monitor_loop ticks ;;
      match raised with
      | Some e => ret (Some e)
      | None => shutdown ;;; ret None
      end.

End LogMonitorBot.

Arguments Filter : clear implicits.
Arguments Bot : clear implicits.

(** Projections of the result of a computation. *)
Definition val {RE A} (r : A * Bot RE * World) : A := fst (fst r).
Definition bot_of {RE A} (r : A * Bot RE * World) : Bot RE := snd (fst r).
Definition world_of {RE A} (r : A * Bot RE * World) : World := snd r.

(** ** Fixtures

    A small engine standing in for [re] in concrete runs: a pattern
    without metacharacters is searched as a substring; the pattern
    [a{4294967296}] raises [OverflowError] as it does in [re]; any
    other pattern with a metacharacter is reported as [re.error]. *)

Fixpoint is_prefix (p s : pystr) : bool :=
  match p, s with
  | [], _ => true
  | _ :: _, [] => false
  | a :: p', b :: s' => (a =? b)%N && is_prefix p' s'
  end.

Fixpoint is_infix (p s : pystr) : bool :=
  is_prefix p s ||
  match s with
  | [] => false
  | _ :: t => is_infix p t
  end.

Definition is_meta (c : char) : bool :=
  existsb (N.eqb c) (py ".^$*+?{}[]\|()").

Definition huge_repeat : pystr := py "a{4294967296}".

Fixpoint pystr_eqb (a b : pystr) : bool :=
  match a, b with
  | [], [] => true
  | x :: a', y :: b' => (x =? y)%N && pystr_eqb a' b'
  | _, _ => false
  end.

Definition literal_engine : RegexEngine := {|
  regex := pystr;
  re_compile := fun p =>
    if pystr_eqb p huge_repeat then CompileRaises (py "OverflowError")
    else if existsb is_meta p then ReError
    else Compiled p;
  re_search := is_infix
|}.

(** The bytes of a literal, for writing file contents. *)
Definition bytes (s : string) : list byte := list_byte_of_string s.
Definition lf : list byte := [x0a].

Definition sample_config : Config := {|
  cfg_bot_token := py "123:abc";
  cfg_chat_id := py "42";
  cfg_log_file := py "app.log";
  cfg_filters :=
    [ {| fc_name := Some (py "ERROR"); fc_pattern := Some (py "ERROR");
         fc_enabled := None |} ];
  cfg_check_interval := None;
  cfg_batch_size := Some 2%Z;
  cfg_batch_timeout := None
|}.

Definition sample_log_1 : list byte :=
  bytes "INFO ok" ++ lf ++ bytes "ERROR disk full" ++ lf.
Definition sample_log_2 : list byte :=
  sample_log_1 ++ bytes "ERROR timeout" ++ lf.

Definition sample_timestamp : pystr := py "2024-01-01 00:00:00".

(** A world in which every request succeeds, the clock stands at 100
    and the log file grows from [sample_log_1] to [sample_log_2] after
    the third interaction. *)
Definition sample_env : Env := {|
  env_getme := fun _ => GetStatus 200 (BodyJson true true);
  env_post := fun _ _ => PostStatus 200;
  env_file := fun k => if k <? 3 then Present sample_log_1
                       else Present sample_log_2;
  env_time := fun _ => 100%Z;
  env_strftime := fun _ => sample_timestamp
|}.

(** The same world with every request to the chat failing. *)
Definition offline_env : Env := {|
  env_getme := fun _ => GetRaises;
  env_post := fun _ _ => PostStatus 502;
  env_file := env_file sample_env;
  env_time := env_time sample_env;
  env_strftime := env_strftime sample_env
|}.

Definition sample_bot : Bot literal_engine :=
  match init sample_config 100 with
  | inr b => b
  | inl _ =>
    {| log_file := []; filters := []; check_interval := 1; batch_size := 10;
       batch_timeout := 5; last_position := 0; pending_logs := [];
       last_send_time := 0; total_logs_sent := 0 |}
  end.

(** A batch whose only entry is a matched line of 4000 characters. *)
Definition long_batch : list pystr :=
  [py "[ERROR]" ++ nl ++ py "ERROR" ++ repeat_str (py "a") 3995].

(** A batch whose second entry lies entirely behind the cut. *)
Definition cut_batch : list pystr :=
  long_batch ++ [py "[ERROR]" ++ nl ++ py "ERROR lost"].

(** A configuration with a disabled rule, a rule whose pattern does not
    compile, and two rules that both hit an [ERROR] line. *)
Definition mixed_filters : list FilterConfig :=
  [ {| fc_name := Some (py "off"); fc_pattern := Some (py "ERROR");
       fc_enabled := Some false |};
    {| fc_name := Some (py "broken"); fc_pattern := Some (py "(ERROR");
       fc_enabled := Some true |};
    {| fc_name := Some (py "first"); fc_pattern := Some (py "ERROR");
       fc_enabled := None |};
    {| fc_name := Some (py "second"); fc_pattern := Some (py "disk");
       fc_enabled := None |} ].

Definition mixed_compiled : list (Filter literal_engine) :=
  [ @Build_Filter literal_engine (py "first") (py "ERROR");
    @Build_Filter literal_engine (py "second") (py "disk") ].

(** A bot holding [cut_batch] as its pending entries. *)
Definition loaded_bot : Bot literal_engine :=
  set_pending_logs cut_batch sample_bot.

(** A world in which the probe succeeds and every post is refused. *)
Definition mute_env : Env := {|
  env_getme := fun _ => GetStatus 200 (BodyJson true true);
  env_post := fun _ _ => PostStatus 403;
  env_file := env_file sample_env;
  env_time := env_time sample_env;
  env_strftime := env_strftime sample_env
|}.

(** A world in which every post is refused, the clock stands still and
    the log file disappears after the second poll. *)
Definition vanishing_env : Env := {|
  env_getme := fun _ => GetStatus 200 (BodyJson true true);
  env_post := fun _ _ => PostStatus 502;
  env_file := fun k => if k <? 3 then Present sample_log_1
                       else if k <? 8 then Present sample_log_2
                       else Absent;
  env_time := fun _ => 100%Z;
  env_strftime := fun _ => sample_timestamp
|}.

(** A world whose log file ends in the middle of a two-byte character. *)
Definition torn_env : Env := {|
  env_getme := env_getme sample_env;
  env_post := env_post sample_env;
  env_file := fun _ => Present (sample_log_1 ++ [xd0]);
  env_time := env_time sample_env;
  env_strftime := env_strftime sample_env
|}.

(** The bot and the world after two iterations in [vanishing_env]: the
    flush of the second poll was refused, two entries are pending. *)
Definition stuck : option pystr * Bot literal_engine * World :=
  monitor_loop vanishing_env 2 sample_bot world0.

(** ** Vocabulary of the properties *)

Section Vocabulary.

Context {RE : RegexEngine}.

(** A configured rule is enabled and its pattern compiles. *)
Definition rule_compiles (fc : FilterConfig) : bool :=
  fc_is_enabled fc &&
  match fc_pattern fc with
  | Some p => match re_compile p with Compiled _ => true | _ => false end
  | None => false
  end.

(** A configured rule is enabled, its pattern compiles and is found in
    the line. *)
Definition rule_hits (line : pystr) (fc : FilterConfig) : bool :=
  fc_is_enabled fc &&
  match fc_pattern fc with
  | Some p =>
    match re_compile p with
    | Compiled r => re_search r line
    | _ => false
    end
  | None => false
  end.

(** The answer the property asks of matching: the name of the first
    configured rule that hits, or no match. *)
Definition first_hit (fcs : list FilterConfig) (line : pystr)
  : bool * option pystr :=
  match find (rule_hits line) fcs with
  | Some fc => (true, fc_name fc)
  | None => (false, None)
  end.

(** The two flush conditions of the source. *)
Definition size_due (s : Bot RE) : bool :=
  (batch_size s <=? Z.of_nat (length (pending_logs s)))%Z.

Definition time_due (now : Z) (s : Bot RE) : bool :=
  negb (is_empty (pending_logs s))
  && (batch_timeout s <=? now - last_send_time s)%Z.

(** The flush condition in the words of the specification. *)
Definition should_flush (now : Z) (s : Bot RE) : bool :=
  size_due s || time_due now s.

(** [self] after the [for] loop of a poll that read [content] and
    decoded [text] from the stored offset. *)
Definition after_lines (s : Bot RE) (content : list byte) (text : pystr)
  : Bot RE :=
  set_last_position (tell_after_read (last_position s) (length content))
    (set_pending_logs
       (fold_left (process_line (filters s)) (readlines text)
                  (pending_logs s)) s).

End Vocabulary.

Definition is_post (e : event) : bool :=
  match e with
  | EvPost _ _ => true
  | _ => false
  end.

Definition is_file_event (e : event) : bool :=
  match e with
  | EvNoFile | EvReadFailed | EvRead _ _ => true
  | _ => false
  end.

(** The events added between two worlds, newest first. *)
Definition new_events (w w' : World) : list event :=
  firstn (length (w_trace w') - length (w_trace w)) (w_trace w').

(** The successful reads of a trace, newest first: the offset the read
    started from and the file as it was. *)
Fixpoint reads_of (t : list event) : list (nat * list byte) :=
  match t with
  | [] => []
  | EvRead off c :: rest => (off, c) :: reads_of rest
  | _ :: rest => reads_of rest
  end.

(** The offset stored after the newest read; [p0] before any read. *)
Definition end_of (p0 : nat) (rs : list (nat * list byte)) : nat :=
  match rs with
  | [] => p0
  | (off, c) :: _ => tell_after_read off (length c)
  end.

(** Every read starts at the offset stored after the read before it. *)
Fixpoint chained (p0 : nat) (rs : list (nat * list byte)) : Prop :=
  match rs with
  | [] => True
  | (off, c) :: older => off = end_of p0 older /\ chained p0 older
  end.

(** The bytes handed to the line loop by the reads, oldest first. *)
Fixpoint consumed (rs : list (nat * list byte)) : list byte :=
  match rs with
  | [] => []
  | (off, c) :: older => consumed older ++ skipn off c
  end.

(** The file as it was at the newest read has at least the stored
    offset's length. *)
Definition within_last_read (p : nat) (rs : list (nat * list byte)) : Prop :=
  match rs with
  | [] => True
  | (_, c) :: _ => p <= length c
  end.

(** From interaction [k] on, the observed file never gets shorter than
    [p] bytes. *)
Definition never_below (E : Env) (k p : nat) : Prop :=
  forall j c, k <= j -> env_file E j = Present c -> p <= length c.

(** The observed file never shrinks. *)
Definition nonshrinking (E : Env) : Prop :=
  forall i j c c', i <= j -> env_file E i = Present c ->
    env_file E j = Present c' -> length c <= length c'.

(** The observed file is only appended to. *)
Definition append_only (E : Env) : Prop :=
  forall i j c c', i <= j -> env_file E i = Present c ->
    env_file E j = Present c' -> firstn (length c) c' = c.

(** The poll at this point fails to read the file. *)
Definition read_fails {RE} (E : Env) (s : Bot RE) (w : World) : Prop :=
  match env_file E (w_step w) with
  | Absent | Unreadable => True
  | Present c => utf8_decode (skipn (last_position s) c) = None
  end.

(** ** Vocabulary of the effects *)

Section EffectVocabulary.

Context {RE : RegexEngine}.
Variable E : Env.

(** The message a flush of [s] builds when started in world [w]. *)
Definition flush_message (s : Bot RE) (w : World) : pystr :=
  format_log_batch_at (env_strftime E (w_step w)) (pending_logs s).

(** The answer of the chat to that message. *)
Definition flush_accepted (s : Bot RE) (w : World) : bool :=
  post_ok (env_post E (S (w_step w)) (flush_message s w)).

(** The offset is within the file as it was at the newest read and as
    it will be at every later look. *)
Definition offset_in_file (s : Bot RE) (w : World) : Prop :=
  never_below E (w_step w) (last_position s)
  /\ within_last_read (last_position s) (reads_of (w_trace w)).

(** Starting from offset [p0], the reads form a chain ending at the
    stored offset, and together they handed over the file as it was at
    the newest read, from [p0] on. *)
Definition tail_invariant (p0 : nat) (s : Bot RE) (w : World) : Prop :=
  let rs := reads_of (w_trace w) in
  chained p0 rs
  /\ last_position s = end_of p0 rs
  /\ never_below E (w_step w) (last_position s)
  /\ match rs with
     | [] => True
     | (_, c) :: _ =>
       consumed rs = skipn p0 c
       /\ p0 <= length c
       /\ last_position s = length c
       /\ exists i, i < w_step w /\ env_file E i = Present c
     end.

End EffectVocabulary.

(** The world right after the file was looked at. *)
Definition polled (e : event) (w : World) : World :=
  {| w_step := S (w_step w); w_trace := e :: w_trace w |}.

(** ** Vocabulary of the further properties *)

Section MoreVocabulary.

Context {RE : RegexEngine}.

(** The exception with which [compile_filters] ends at this rule, if
    any: none for a disabled rule; for an enabled one a missing
    ['name'], else a missing ['pattern'], else an exception of
    [re.compile] other than [re.error]. *)
Definition rule_failure (fc : FilterConfig) : option exn :=
  if fc_is_enabled fc then
    match fc_name fc, fc_pattern fc with
    | None, _ => Some (KeyError (py "name"))
    | Some _, None => Some (KeyError (py "pattern"))
    | Some _, Some p =>
      match re_compile p with
      | CompileRaises e => Some (Uncaught e)
      | _ => None
      end
    end
  else None.

(** The failure of the first rule that has one. *)
Fixpoint first_failure (fcs : list FilterConfig) : option exn :=
  match fcs with
  | [] => None
  | fc :: rest =>
    match rule_failure fc with
    | Some e => Some e
    | None => first_failure rest
    end
  end.

(** The entries the line loop appends for these lines, in order. *)
Definition matched_entries (fs : list (Filter RE)) (lines : list pystr)
  : list pystr :=
  flat_map (process_line fs []) lines.

(** The entries appended by the reads of a trace, oldest first. *)
Fixpoint entries_of_reads (fs : list (Filter RE))
  (rs : list (nat * list byte)) : list pystr :=
  match rs with
  | [] => []
  | (off, c) :: older =>
    entries_of_reads fs older
    ++ match utf8_decode (skipn off c) with
       | Some text => matched_entries fs (readlines text)
       | None => []
       end
  end.

End MoreVocabulary.

(** A posted text of at most 4016 characters, or another event. *)
Definition short_post (e : event) : Prop :=
  match e with
  | EvPost text _ => length text <= 4016
  | _ => True
  end.

(** The chat refuses every post. *)
Definition always_refused (E : Env) : Prop :=
  forall k text, post_ok (env_post E k text) = false.

Section AccountingVocabulary.

Context {RE : RegexEngine}.
Variable E : Env.

(** The state of the entries after some iterations, relative to the
    start [(s0, w0)]. *)
Definition accounted (s0 : Bot RE) (w0 : World) (s : Bot RE) (w : World)
  : Prop :=
  let added := entries_of_reads (filters s0) (reads_of (w_trace w)) in
  filters s = filters s0
  /\ total_logs_sent s + length (pending_logs s)
     = total_logs_sent s0 + length (pending_logs s0) + length added
  /\ (exists l, w_trace w = l ++ w_trace w0 /\ Forall short_post l)
  /\ (always_refused E ->
      pending_logs s = pending_logs s0 ++ added
      /\ total_logs_sent s = total_logs_sent s0).

End AccountingVocabulary.

(** A rule list whose first rule has a pattern on which [re.compile]
    raises [OverflowError]. *)
Definition overflow_filters : list FilterConfig :=
  [ {| fc_name := Some (py "big"); fc_pattern := Some huge_repeat;
       fc_enabled := None |};
    {| fc_name := Some (py "ERROR"); fc_pattern := Some (py "ERROR");
       fc_enabled := None |} ].

Definition overflow_config : Config := {|
  cfg_bot_token := cfg_bot_token sample_config;
  cfg_chat_id := cfg_chat_id sample_config;
  cfg_log_file := cfg_log_file sample_config;
  cfg_filters := overflow_filters;
  cfg_check_interval := None;
  cfg_batch_size := None;
  cfg_batch_timeout := None
|}.

(** A rule list whose second rule is enabled and has no pattern. *)
Definition keyless_filters : list FilterConfig :=
  [ {| fc_name := None; fc_pattern := None; fc_enabled := Some false |};
    {| fc_name := Some (py "no pattern"); fc_pattern := None;
       fc_enabled := None |};
    {| fc_name := None; fc_pattern := Some (py "x"); fc_enabled := None |} ].

(** The text of [sample_log_1], and of what [sample_log_2] adds. *)
Definition sample_text_1 : pystr :=
  py "INFO ok" ++ nl ++ py "ERROR disk full" ++ nl.
Definition sample_text_2 : pystr := py "ERROR timeout" ++ nl.

(** A bot that has read 38 bytes, and a world in which the log file
    was replaced by a shorter one holding a line that would match. *)
Definition advanced_bot : Bot literal_engine :=
  set_last_position 38 sample_bot.

Definition rotated_log : list byte := bytes "ERROR after rotation" ++ lf.

Definition rotated_env : Env := {|
  env_getme := env_getme sample_env;
  env_post := env_post sample_env;
  env_file := fun _ => Present rotated_log;
  env_time := env_time sample_env;
  env_strftime := env_strftime sample_env
|}.

(** The world after a successful start of [run]: the probe and the
    accepted startup message. *)
Definition started {RE} (s : Bot RE) (w : World) : World :=
  {| w_step := S (S (w_step w));
     w_trace := EvPost (test_msg s) true :: EvGetMe true :: w_trace w |}.


(** A world whose log file holds [sample_log_2] from the start. *)
Definition grown_env : Env := {|
  env_getme := env_getme sample_env;
  env_post := env_post sample_env;
  env_file := fun _ => Present sample_log_2;
  env_time := env_time sample_env;
  env_strftime := env_strftime sample_env
|}.

(** The sample configuration with [batch_size] 1, and with a negative
    [check_interval]. *)
Definition eager_config : Config := {|
  cfg_bot_token := cfg_bot_token sample_config;
  cfg_chat_id := cfg_chat_id sample_config;
  cfg_log_file := cfg_log_file sample_config;
  cfg_filters := cfg_filters sample_config;
  cfg_check_interval := None;
  cfg_batch_size := Some 1%Z;
  cfg_batch_timeout := None
|}.


Definition bot_for (config : Config) : Bot literal_engine :=
  match init config 100 with
  | inr b => b
  | inl _ => sample_bot
  end.

Definition eager_bot : Bot literal_engine := bot_for eager_config.

(** A world whose log file holds [sample_log_1] and whose clock stands
    at 200, long after the bot was built. *)
Definition late_env : Env := {|
  env_getme := env_getme sample_env;
  env_post := env_post sample_env;
  env_file := fun _ => Present sample_log_1;
  env_time := fun _ => 200%Z;
  env_strftime := env_strftime sample_env
|}.

(** ** Sanity checks of the embedding *)

Example py_ascii : py "ERROR" = [69; 82; 82; 79; 82]%N.
Proof. reflexivity. Qed.

Example py_cyrillic : py "Время" = [1042; 1088; 1077; 1084; 1103]%N.
Proof. reflexivity. Qed.

Example py_emoji : py "🔔" = [128276%N].
Proof. reflexivity. Qed.

Example utf8_truncated_sequence : utf8_decode [xd0] = None.
Proof. reflexivity. Qed.

Example str_of_nat_4000 : str_of_nat 4000 = py "4000".
Proof. reflexivity. Qed.

Example strip_line : strip (py "  a b " ++ nl) = py "a b".
Proof. reflexivity. Qed.

Example readlines_universal_newlines :
  readlines (py "x" ++ [13; 10]%N ++ py "y" ++ [13]%N ++ py "z")
  = [py "x" ++ nl; py "y" ++ nl; py "z"].
Proof. reflexivity. Qed.

Example truncation_marker_length : length truncation_marker = 16.
Proof. reflexivity. Qed.

Example format_small_batch :
  format_log_batch_at sample_timestamp [py "[ERROR]" ++ nl ++ py "ERROR x"]
  = py "🔔 Уведомление о логах" ++ nl
    ++ py "Время: 2024-01-01 00:00:00" ++ nl
    ++ py "Записей: 1" ++ nl
    ++ py "========================================" ++ nl ++ nl
    ++ py "[ERROR]" ++ nl ++ py "ERROR x".
Proof. reflexivity. Qed.

(** The end-to-end scenario of the specification: one rule [ERROR],
    [batch_size] 2, three log lines over two polls; one message is
    posted, with the two [ERROR] entries. *)
Example two_polls_one_flush :
  let r := monitor_loop sample_env 2 sample_bot world0 in
  filter is_post (w_trace (world_of r))
  = [EvPost (format_log_batch_at sample_timestamp
               [py "[ERROR]" ++ nl ++ py "ERROR disk full";
                py "[ERROR]" ++ nl ++ py "ERROR timeout"]) true]
  /\ pending_logs (bot_of r) = []
  /\ total_logs_sent (bot_of r) = 2
  /\ last_position (bot_of r) = length sample_log_2.
Proof. vm_compute. repeat split; reflexivity. Qed.

Lemma val_tuple {RE A} (a : A) (s : Bot RE) (w : World) :
  val (a, s, w) = a.
Proof. reflexivity. Qed.

Lemma bot_of_tuple {RE A} (a : A) (s : Bot RE) (w : World) :
  bot_of (a, s, w) = s.
Proof. reflexivity. Qed.

Lemma world_of_tuple {RE A} (a : A) (s : Bot RE) (w : World) :
  world_of (a, s, w) = w.
Proof. reflexivity. Qed.

(** ** Message formatting *)

Section Formatting.

Context {RE : RegexEngine}.
Variable E : Env.

Lemma truncate_short (m : pystr) :
  length m <= 4000 -> truncate m = m.
Proof.
  intros H. unfold truncate.
  destruct (Nat.ltb_spec 4000 (length m)); [lia | reflexivity].
Qed.

Lemma truncate_long (m : pystr) :
  4000 < length m -> truncate m = firstn 4000 m ++ truncation_marker.
Proof.
  intros H. unfold truncate.
  destruct (Nat.ltb_spec 4000 (length m)); [reflexivity | lia].
Qed.

Lemma truncate_long_length (m : pystr) :
  4000 < length m -> length (truncate m) = 4016.
Proof.
  intros H. rewrite (truncate_long m H), length_app, length_firstn.
  change (length truncation_marker) with 16. lia.
Qed.

Lemma truncate_length_le (m : pystr) : length (truncate m) <= 4016.
Proof.
  destruct (Nat.le_gt_cases (length m) 4000) as [H | H].
  - rewrite (truncate_short m H). lia.
  - rewrite (truncate_long_length m H). lia.
Qed.

Lemma format_log_batch_run (logs : list pystr) (s : Bot RE) (w : World) :
  format_log_batch E logs s w
  = (format_log_batch_at (env_strftime E (w_step w)) logs, s,
     {| w_step := S (w_step w); w_trace := w_trace w |}).
Proof. reflexivity. Qed.

(** C1, as the code has it: the message of [format_log_batch] is the
    natural message (header and joined entries) when that has at most
    4000 characters; otherwise it is the first 4000 characters of the
    natural message followed by the 16-character truncation marker, 4016
    characters in all.  So the message never exceeds 4016 characters. *)
Theorem format_log_batch_truncation (logs : list pystr) (s : Bot RE)
  (w : World) :
  let natural := natural_message (env_strftime E (w_step w)) logs in
  let message := val (format_log_batch E logs s w) in
  length message <= 4016
  /\ (length natural <= 4000 -> message = natural)
  /\ (4000 < length natural ->
      message = firstn 4000 natural ++ truncation_marker
      /\ length message = 4016).
Proof.
  intros natural message.
  assert (Hm : message = truncate natural) by reflexivity.
  rewrite Hm. split; [apply truncate_length_le | split].
  - apply truncate_short.
  - intros H. split; [apply truncate_long | apply truncate_long_length]; exact H.
Qed.

End Formatting.

Lemma format_log_batch_truncation_witness :
  let natural := natural_message sample_timestamp long_batch in
  let message :=
    val (format_log_batch sample_env long_batch sample_bot world0) in
  4000 < length natural
  /\ message = firstn 4000 natural ++ truncation_marker
  /\ length message = 4016.
Proof.
  intros natural message.
  assert (H : 4000 < length natural) by (vm_compute; lia).
  split; [exact H |].
  exact (proj2 (proj2 (format_log_batch_truncation
                         sample_env long_batch sample_bot world0)) H).
Defined.

(** C1, as stated, fails: a batch with one matched line of 4000
    characters gives a message of 4016 characters. *)
Lemma format_log_batch_exceeds_4000 :
  ~ (length (val (format_log_batch sample_env long_batch sample_bot world0))
     <= 4000).
Proof.
  assert (H : length (val (format_log_batch sample_env long_batch
                             sample_bot world0)) = 4016)
    by (vm_compute; reflexivity).
  rewrite H. lia.
Qed.

(** ** Matching *)

Section Matching.

Context {RE : RegexEngine}.

Lemma first_hit_cons (fc : FilterConfig) (fcs : list FilterConfig)
  (line : pystr) :
  first_hit (fc :: fcs) line
  = if rule_hits line fc then (true, fc_name fc) else first_hit fcs line.
Proof.
  unfold first_hit. simpl. destruct (rule_hits line fc); reflexivity.
Qed.

Lemma check_log_match_compiled (fcs : list FilterConfig) :
  forall fs : list (Filter RE),
    compile_filters fcs = inr fs ->
    forall line, check_log_match fs line = first_hit fcs line.
Proof.
  induction fcs as [| fc fcs IH]; intros fs Hc line.
  - simpl in Hc. injection Hc as <-. reflexivity.
  - rewrite first_hit_cons. unfold rule_hits. simpl in Hc.
    destruct (fc_is_enabled fc); simpl.
    + destruct (fc_name fc) as [name |]; [| discriminate].
      destruct (fc_pattern fc) as [p |]; [| discriminate].
      destruct (re_compile p) as [r | | e0].
      * destruct (compile_filters fcs) as [e | fs']; [discriminate |].
        injection Hc as <-. simpl.
        destruct (re_search r line); [reflexivity | now apply IH].
      * now apply IH.
      * discriminate.
    + now apply IH.
Qed.

Lemma compile_filters_names (fcs : list FilterConfig) :
  forall fs : list (Filter RE),
    compile_filters fcs = inr fs ->
    map (fun f => Some (f_name f)) fs = map fc_name (filter rule_compiles fcs).
Proof.
  induction fcs as [| fc fcs IH]; intros fs Hc.
  - simpl in Hc. injection Hc as <-. reflexivity.
  - simpl in Hc. simpl. unfold rule_compiles at 1.
    destruct (fc_is_enabled fc); simpl.
    + destruct (fc_name fc) as [name |] eqn:Hn; [| discriminate].
      destruct (fc_pattern fc) as [p |]; [| discriminate].
      destruct (re_compile p) as [r | | e0].
      * destruct (compile_filters fcs) as [e | fs']; [discriminate |].
        injection Hc as <-. simpl. rewrite Hn. f_equal. now apply IH.
      * now apply IH.
      * discriminate.
    + now apply IH.
Qed.

Lemma rule_hits_compiles (line : pystr) (fc : FilterConfig) :
  rule_hits line fc = true -> rule_compiles fc = true.
Proof.
  unfold rule_hits, rule_compiles.
  destruct (fc_is_enabled fc); simpl; [| discriminate].
  destruct (fc_pattern fc) as [p |]; [| discriminate].
  destruct (re_compile p); [reflexivity | discriminate | discriminate].
Qed.

(** X13: on the filters compiled from a configuration, [check_log_match]
    answers with the name of the first rule, in configuration order,
    that is enabled and whose compiled pattern [search] finds in the
    line, and with [(False, None)] when there is none; the compiled
    filters are exactly the enabled rules whose pattern compiles, so a
    rule whose pattern [re.compile] rejects with [re.error] is not among
    them, and every match comes from a rule that is enabled and
    compiled.  This is for configurations on which [compile_filters]
    returns. *)
Theorem check_log_match_first_rule (fcs : list FilterConfig)
  (fs : list (Filter RE)) :
  compile_filters fcs = inr fs ->
  (forall line, check_log_match fs line = first_hit fcs line)
  /\ map (fun f => Some (f_name f)) fs
     = map fc_name (filter rule_compiles fcs)
  /\ (forall line name,
        check_log_match fs line = (true, Some name) ->
        exists before fc after,
          fcs = before ++ fc :: after
          /\ fc_name fc = Some name
          /\ rule_compiles fc = true
          /\ rule_hits line fc = true
          /\ forall fc', In fc' before -> rule_hits line fc' = false)
  /\ (forall line,
        check_log_match fs line = (false, None) <->
        forall fc, In fc fcs -> rule_hits line fc = false).
Proof.
  intros Hc. split; [| split; [| split]].
  - now apply check_log_match_compiled.
  - now apply compile_filters_names.
  - intros line name Hm.
    rewrite (check_log_match_compiled fcs Hc) in Hm. unfold first_hit in Hm.
    destruct (find (rule_hits line) fcs) as [fc |] eqn:Hf; [| discriminate].
    injection Hm as Hname.
    clear Hc. revert Hf. induction fcs as [| a fcs IH]; [discriminate |].
    simpl. destruct (rule_hits line a) eqn:Ha.
    + intros [= ->]. exists [], fc, fcs. repeat split; try assumption.
      * now apply rule_hits_compiles with line.
      * intros fc' [].
    + intros Hf. destruct (IH Hf) as (b & fc0 & af & -> & H1 & H2 & H3 & H4).
      exists (a :: b), fc0, af. repeat split; try assumption.
      intros fc' [<- | Hin]; [assumption | now apply H4].
  - intros line. rewrite (check_log_match_compiled fcs Hc). unfold first_hit.
    destruct (find (rule_hits line) fcs) as [fc |] eqn:Hf.
    + split; [discriminate |]. intros Hall.
      apply find_some in Hf. destruct Hf as [Hin Hh].
      rewrite (Hall fc Hin) in Hh. discriminate.
    + split; [| reflexivity]. intros _ fc Hin.
      now apply (find_none _ _ Hf).
Qed.

End Matching.

Lemma check_log_match_first_rule_witness :
  compile_filters mixed_filters = inr mixed_compiled
  /\ check_log_match mixed_compiled (py "12:00 ERROR disk full")
     = (true, Some (py "first"))
  /\ check_log_match mixed_compiled (py "12:00 INFO ok") = (false, None)
  /\ map (fun f => Some (f_name f)) mixed_compiled
     = [Some (py "first"); Some (py "second")].
Proof.
  assert (Hc : compile_filters mixed_filters = inr mixed_compiled)
    by reflexivity.
  destruct (check_log_match_first_rule mixed_filters Hc) as (H1 & H2 & _).
  split; [exact Hc | split; [| split]].
  - rewrite H1. reflexivity.
  - rewrite H1. reflexivity.
  - rewrite H2. reflexivity.
Defined.

(** ** Flushing *)

Section Flushing.

Context {RE : RegexEngine}.
Variable E : Env.

Lemma send_pending_logs_empty (s : Bot RE) (w : World) :
  pending_logs s = [] -> send_pending_logs E s w = (true, s, w).
Proof.
  intros H. unfold send_pending_logs, bind, get. rewrite H. reflexivity.
Qed.

Lemma send_pending_logs_refused (s : Bot RE) (w : World) :
  pending_logs s <> [] ->
  flush_accepted E s w = false ->
  send_pending_logs E s w
  = (false, s,
     {| w_step := S (S (w_step w));
        w_trace := EvPost (flush_message E s w) false :: w_trace w |}).
Proof.
  intros Hne Hpost. unfold flush_accepted, flush_message in Hpost.
  unfold send_pending_logs, bind, get.
  destruct (pending_logs s) as [| l ls] eqn:Hp; [congruence |].
  cbn -[format_log_batch_at].
  unfold flush_message. rewrite Hp, Hpost. reflexivity.
Qed.

Lemma send_pending_logs_accepted (s : Bot RE) (w : World) :
  pending_logs s <> [] ->
  flush_accepted E s w = true ->
  send_pending_logs E s w
  = (true,
     set_last_send_time (env_time E (S (S (w_step w))))
       (set_pending_logs []
          (set_total_logs_sent
             (total_logs_sent s + length (pending_logs s)) s)),
     {| w_step := S (S (S (w_step w)));
        w_trace := EvPost (flush_message E s w) true :: w_trace w |}).
Proof.
  intros Hne Hpost. unfold flush_accepted, flush_message in Hpost.
  unfold send_pending_logs, bind, get.
  destruct (pending_logs s) as [| l ls] eqn:Hp; [congruence |].
  cbn -[format_log_batch_at].
  unfold flush_message. rewrite Hp, Hpost. reflexivity.
Qed.

(** C2: when the chat refuses the message of a non-empty flush,
    [send_pending_logs] returns false and leaves [self] as it was:
    [pending_logs], [total_logs_sent] and [last_send_time] keep their
    values; the one thing done is the refused post.  The next flush,
    whenever it starts, posts the message built from the same entries. *)
Theorem send_pending_logs_failure_retains (s : Bot RE) (w : World) :
  pending_logs s <> [] ->
  flush_accepted E s w = false ->
  let r := send_pending_logs E s w in
  val r = false
  /\ bot_of r = s
  /\ pending_logs (bot_of r) = pending_logs s
  /\ total_logs_sent (bot_of r) = total_logs_sent s
  /\ last_send_time (bot_of r) = last_send_time s
  /\ w_trace (world_of r) = EvPost (flush_message E s w) false :: w_trace w
  /\ forall w2, exists ok,
       w_trace (world_of (send_pending_logs E (bot_of r) w2))
       = EvPost (format_log_batch_at (env_strftime E (w_step w2))
                   (pending_logs s)) ok
         :: w_trace w2.
Proof.
  intros Hne Hpost r. unfold r.
  rewrite (send_pending_logs_refused s w Hne Hpost).
  unfold val, bot_of, world_of. cbn [fst snd w_trace].
  repeat (split; [reflexivity |]).
  intros w2. destruct (flush_accepted E s w2) eqn:H2.
  - exists true. rewrite (send_pending_logs_accepted s w2 Hne H2). reflexivity.
  - exists false. rewrite (send_pending_logs_refused s w2 Hne H2). reflexivity.
Qed.

(** C10: when the chat accepts the message of a non-empty flush,
    [pending_logs] becomes empty and [total_logs_sent] grows by the
    number of pending entries, whatever the length of the message; when
    the natural message is longer than 4000 characters the text posted
    is only its first 4000 characters and the marker.  The entries are
    gone from [self]: a flush that follows posts nothing. *)
Theorem send_pending_logs_success_counts_all (s : Bot RE) (w : World) :
  pending_logs s <> [] ->
  flush_accepted E s w = true ->
  let natural :=
    natural_message (env_strftime E (w_step w)) (pending_logs s) in
  let r := send_pending_logs E s w in
  val r = true
  /\ pending_logs (bot_of r) = []
  /\ total_logs_sent (bot_of r)
     = total_logs_sent s + length (pending_logs s)
  /\ last_send_time (bot_of r) = env_time E (S (S (w_step w)))
  /\ w_trace (world_of r) = EvPost (truncate natural) true :: w_trace w
  /\ (4000 < length natural ->
      truncate natural = firstn 4000 natural ++ truncation_marker)
  /\ forall w2, send_pending_logs E (bot_of r) w2 = (true, bot_of r, w2).
Proof.
  intros Hne Hpost natural r. unfold r.
  rewrite (send_pending_logs_accepted s w Hne Hpost).
  unfold val, bot_of, world_of.
  cbn [fst snd pending_logs total_logs_sent last_send_time w_trace
       set_last_send_time set_pending_logs set_total_logs_sent].
  split; [reflexivity |]. split; [reflexivity |]. split; [reflexivity |].
  split; [reflexivity |]. split; [reflexivity |]. split.
  - apply truncate_long.
  - intros w2. apply send_pending_logs_empty. reflexivity.
Qed.

End Flushing.

Lemma send_pending_logs_failure_retains_witness :
  let r := send_pending_logs offline_env loaded_bot world0 in
  val r = false
  /\ bot_of r = loaded_bot
  /\ exists ok,
       w_trace (world_of (send_pending_logs offline_env (bot_of r) world0))
       = [EvPost (format_log_batch_at sample_timestamp cut_batch) ok].
Proof.
  assert (Hne : pending_logs loaded_bot <> []) by discriminate.
  assert (Hpost : flush_accepted offline_env loaded_bot world0 = false)
    by reflexivity.
  destruct (send_pending_logs_failure_retains offline_env loaded_bot world0
              Hne Hpost) as (H1 & H2 & _ & _ & _ & _ & H7).
  split; [exact H1 | split; [exact H2 |]].
  exact (H7 world0).
Defined.

Lemma send_pending_logs_success_counts_all_witness :
  let r := send_pending_logs sample_env loaded_bot world0 in
  let natural := natural_message sample_timestamp cut_batch in
  4000 < length natural
  /\ pending_logs (bot_of r) = []
  /\ total_logs_sent (bot_of r) = 2
  /\ w_trace (world_of r)
     = [EvPost (firstn 4000 natural ++ truncation_marker) true]
  /\ is_infix (py "ERROR lost") (firstn 4000 natural ++ truncation_marker)
     = false.
Proof.
  intros r natural.
  assert (Hne : pending_logs loaded_bot <> []) by discriminate.
  assert (Hpost : flush_accepted sample_env loaded_bot world0 = true)
    by reflexivity.
  assert (Hlong : 4000 < length natural) by (vm_compute; lia).
  destruct (send_pending_logs_success_counts_all sample_env loaded_bot world0
              Hne Hpost) as (_ & H2 & H3 & _ & H5 & H6 & _).
  split; [exact Hlong | split; [exact H2 | split; [exact H3 | split]]].
  - rewrite (H6 Hlong) in H5. exact H5.
  - vm_compute. reflexivity.
Defined.

(** ** Polling *)

Section Polling.

Context {RE : RegexEngine}.
Variable E : Env.

Lemma new_events_extend (w w' : World) (l : list event) :
  w_trace w' = l ++ w_trace w -> new_events w w' = l.
Proof.
  intros H. unfold new_events. rewrite H, length_app.
  replace (length l + length (w_trace w) - length (w_trace w))
    with (length l + 0) by lia.
  rewrite firstn_app_2. simpl. apply app_nil_r.
Qed.

Lemma process_new_lines_fails (s : Bot RE) (w : World) :
  read_fails E s w ->
  exists e, (e = EvNoFile \/ e = EvReadFailed)
            /\ process_new_lines E s w = (tt, s, polled e w).
Proof.
  unfold read_fails, process_new_lines, bind, interact, get.
  cbn [w_step w_trace].
  destruct (env_file E (w_step w)) as [| | c].
  - intros _. exists EvNoFile. split; [now left | reflexivity].
  - intros _. exists EvReadFailed. split; [now right | reflexivity].
  - intros H. rewrite H. exists EvReadFailed. split; [now right | reflexivity].
Qed.

Lemma process_new_lines_read (s : Bot RE) (w : World) (c : list byte)
  (text : pystr) :
  env_file E (w_step w) = Present c ->
  utf8_decode (skipn (last_position s) c) = Some text ->
  process_new_lines E s w
  = when (size_due (after_lines s c text)) (ignore (send_pending_logs E))
         (after_lines s c text) (polled (EvRead (last_position s) c) w).
Proof.
  intros Hf Hd. unfold process_new_lines, bind, interact, get.
  cbn [w_step w_trace]. rewrite Hf, Hd. reflexivity.
Qed.

(** C7: when the poll finds no file, or opening, reading or decoding
    the file raises, [process_new_lines] returns normally with [self]
    unchanged (same offset, same pending entries) and nothing posted;
    the only thing done is the look at the file.  A later poll that can
    read the file reads it from that same offset. *)
Theorem process_new_lines_error_keeps_offset (s : Bot RE) (w : World) :
  read_fails E s w ->
  let r := process_new_lines E s w in
  val r = tt
  /\ bot_of r = s
  /\ last_position (bot_of r) = last_position s
  /\ pending_logs (bot_of r) = pending_logs s
  /\ (new_events w (world_of r) = [EvNoFile]
      \/ new_events w (world_of r) = [EvReadFailed])
  /\ forall w2 c text,
       env_file E (w_step w2) = Present c ->
       utf8_decode (skipn (last_position s) c) = Some text ->
       process_new_lines E (bot_of r) w2
       = when (size_due (after_lines s c text)) (ignore (send_pending_logs E))
              (after_lines s c text) (polled (EvRead (last_position s) c) w2).
Proof.
  intros Hfail r. unfold r.
  destruct (process_new_lines_fails s w Hfail) as (e & He & ->).
  unfold val, bot_of, world_of. cbn [fst snd].
  repeat (split; [reflexivity |]). split.
  - destruct He as [-> | ->]; [left | right];
      now apply new_events_extend.
  - intros w2 c text Hf Hd. now apply process_new_lines_read.
Qed.

Lemma process_line_keeps (fs : list (Filter RE)) (acc : list pystr)
  (raw x : pystr) :
  In x acc -> In x (process_line fs acc raw).
Proof.
  intros H. unfold process_line.
  destruct (is_empty (strip raw)); [assumption |].
  destruct (check_log_match fs (strip raw)) as [[|] [name |]];
    try assumption.
  apply in_or_app. now left.
Qed.

Lemma fold_process_line_keeps (fs : list (Filter RE)) (lines : list pystr) :
  forall acc x, In x acc -> In x (fold_left (process_line fs) lines acc).
Proof.
  induction lines as [| l lines IH]; intros acc x H; simpl; [assumption |].
  apply IH. now apply process_line_keeps.
Qed.

Lemma fold_process_line_collects (fs : list (Filter RE))
  (lines : list pystr) :
  forall acc raw name,
    In raw lines ->
    strip raw <> [] ->
    check_log_match fs (strip raw) = (true, Some name) ->
    In (py "[" ++ name ++ py "]" ++ nl ++ strip raw)
       (fold_left (process_line fs) lines acc).
Proof.
  induction lines as [| l lines IH]; intros acc raw name Hin Hne Hm;
    [destruct Hin |].
  destruct Hin as [-> | Hin]; simpl.
  - apply fold_process_line_keeps. unfold process_line.
    destruct (strip raw) as [| ch rest] eqn:Hs; [congruence |].
    cbn [is_empty]. rewrite Hm. apply in_or_app. right. now left.
  - now apply IH with (raw := raw).
Qed.

End Polling.

Lemma process_new_lines_error_keeps_offset_witness :
  let r := process_new_lines torn_env sample_bot world0 in
  read_fails torn_env sample_bot world0
  /\ bot_of r = sample_bot
  /\ (new_events world0 (world_of r) = [EvNoFile]
      \/ new_events world0 (world_of r) = [EvReadFailed]).
Proof.
  assert (H : read_fails torn_env sample_bot world0) by reflexivity.
  destruct (process_new_lines_error_keeps_offset torn_env sample_bot world0 H)
    as (_ & H2 & _ & _ & H5 & _).
  split; [exact H | split; [exact H2 | exact H5]].
Defined.

(** ** The loop *)

Section Loop.

Context {RE : RegexEngine}.
Variable E : Env.

(** A flush either finds nothing to send, or posts one message; a
    refused post leaves [self] alone, an accepted one empties the
    pending entries. *)
Lemma send_pending_logs_cases (s : Bot RE) (w : World) :
  let r := send_pending_logs E s w in
  (pending_logs s = [] /\ r = (true, s, w))
  \/ (pending_logs s <> []
      /\ exists ok,
           w_trace (world_of r) = EvPost (flush_message E s w) ok :: w_trace w
           /\ w_step w < w_step (world_of r)
           /\ last_position (bot_of r) = last_position s
           /\ check_interval (bot_of r) = check_interval s
           /\ (bot_of r = s \/ pending_logs (bot_of r) = [])).
Proof.
  intros r. unfold r. destruct (pending_logs s) as [| x xs] eqn:Hp.
  - left. split; [reflexivity | now apply send_pending_logs_empty].
  - right. split; [discriminate |].
    assert (Hne : pending_logs s <> []) by (rewrite Hp; discriminate).
    destruct (flush_accepted E s w) eqn:Ha.
    + exists true. rewrite (send_pending_logs_accepted E s w Hne Ha).
      unfold bot_of, world_of. cbn [fst snd w_trace w_step].
      repeat split; try reflexivity; [lia | now right].
    + exists false. rewrite (send_pending_logs_refused E s w Hne Ha).
      unfold bot_of, world_of. cbn [fst snd w_trace w_step].
      repeat split; try reflexivity; [lia | now left].
Qed.

(** What a guarded flush adds to the trace. *)
Lemma when_flush_effect (b : bool) (s : Bot RE) (w : World) :
  let r := when b (ignore (send_pending_logs E)) s w in
  exists l,
    w_trace (world_of r) = l ++ w_trace w
    /\ reads_of l = []
    /\ existsb is_post l = b && negb (is_empty (pending_logs s))
    /\ w_step w <= w_step (world_of r)
    /\ last_position (bot_of r) = last_position s
    /\ check_interval (bot_of r) = check_interval s
    /\ (bot_of r = s
        \/ (pending_logs (bot_of r) = [] /\ existsb is_post l = true)).
Proof.
  intros r. unfold r, when. destruct b.
  - unfold ignore, bind, ret.
    destruct (send_pending_logs_cases s w) as [[Hp Hr] | [Hne (ok & H)]].
    + rewrite Hr. exists []. rewrite Hp.
      unfold bot_of, world_of. cbn [fst snd].
      repeat split; try reflexivity; try lia; now left.
    + destruct (send_pending_logs E s w) as [[v s'] w'].
      unfold bot_of, world_of in *. cbn [fst snd] in *.
      destruct H as (Ht & Hs & Hl & Hc & Hb).
      exists [EvPost (flush_message E s w) ok].
      split; [exact Ht |]. split; [reflexivity |].
      split; [destruct (pending_logs s); [congruence | reflexivity] |].
      split; [lia |]. split; [exact Hl |]. split; [exact Hc |].
      destruct Hb as [Hb | Hb]; [now left | right; now split].
  - exists []. unfold ret, bot_of, world_of. cbn [fst snd].
    repeat split; try reflexivity; try lia; now left.
Qed.

Lemma loop_iteration_run (s : Bot RE) (w : World) :
  loop_iteration E s w
  = let rp := process_new_lines E s w in
    let s2 := bot_of rp in
    let w2 := world_of rp in
    let now := env_time E (w_step w2) in
    let rf := when (time_due now s2) (ignore (send_pending_logs E)) s2
                   {| w_step := S (w_step w2); w_trace := w_trace w2 |} in
    (sleep_error (check_interval s2), bot_of rf,
     {| w_step := S (w_step (world_of rf));
        w_trace := EvSleep (check_interval s2) :: w_trace (world_of rf) |}).
Proof.
  unfold loop_iteration, time_now, sleep.
  unfold bind, interact, get, ret, emit.
  destruct (process_new_lines E s w) as [[u s2] w2].
  unfold bot_of, world_of. cbn [fst snd w_step w_trace].
  fold (time_due (env_time E (w_step w2)) s2).
  destruct (when (time_due (env_time E (w_step w2)) s2)
              (ignore (send_pending_logs E)) s2
              {| w_step := S (w_step w2); w_trace := w_trace w2 |})
    as [[u' s3] w3].
  reflexivity.
Qed.

End Loop.

(** ** Flush triggers *)

Section Triggers.

Context {RE : RegexEngine}.
Variable E : Env.

Lemma time_due_nonempty (now : Z) (s : Bot RE) :
  time_due now s && negb (is_empty (pending_logs s)) = time_due now s.
Proof.
  unfold time_due. destruct (is_empty (pending_logs s)); simpl;
    [reflexivity | apply andb_true_r].
Qed.

Lemma time_due_is_empty (now : Z) (s : Bot RE) :
  is_empty (pending_logs s) = true -> time_due now s = false.
Proof. intros H. unfold time_due. rewrite H. reflexivity. Qed.

Lemma time_due_empty (now : Z) (s : Bot RE) :
  pending_logs s = [] -> time_due now s = false.
Proof. intros H. unfold time_due. rewrite H. reflexivity. Qed.

(** C6, as the code has it.  In an iteration of the loop whose poll
    read the file, a message is posted exactly when, after the line
    loop, there are pending entries and either their number is at least
    [batch_size] or the clock reading of the iteration is at least
    [batch_timeout] past [last_send_time]; the size test is made inside
    the poll, right after the line loop, and alone decides whether the
    poll posts.  In an iteration whose poll found no file or failed to
    read it, the size test is not made: the poll posts nothing, and a
    message is posted exactly when the time test holds. *)
Theorem flush_triggers (s : Bot RE) (w : World) :
  let rp := process_new_lines E s w in
  let now := env_time E (w_step (world_of rp)) in
  let r := loop_iteration E s w in
  (forall c text,
     env_file E (w_step w) = Present c ->
     utf8_decode (skipn (last_position s) c) = Some text ->
     let s1 := after_lines s c text in
     (exists lp,
        w_trace (world_of rp) = lp ++ w_trace w
        /\ existsb is_post lp
           = negb (is_empty (pending_logs s1)) && size_due s1)
     /\ (exists l,
           w_trace (world_of r) = l ++ w_trace w
           /\ existsb is_post l
              = negb (is_empty (pending_logs s1)) && should_flush now s1))
  /\ (read_fails E s w ->
      (exists lp,
         w_trace (world_of rp) = lp ++ w_trace w
         /\ existsb is_post lp = false)
      /\ (exists l,
            w_trace (world_of r) = l ++ w_trace w
            /\ existsb is_post l = time_due now s)).
Proof.
  intros rp now r. split.
  - intros c text Hf Hd s1.
    pose proof (process_new_lines_read E s w Hf Hd) as Hrp.
    fold rp s1 in Hrp.
    destruct (when_flush_effect E (size_due s1) s1
                (polled (EvRead (last_position s) c) w))
      as (l1 & Ht1 & _ & Hp1 & _ & _ & _ & Hb1).
    rewrite <- Hrp in Ht1, Hb1.
    destruct (when_flush_effect E (time_due now (bot_of rp)) (bot_of rp)
                {| w_step := S (w_step (world_of rp));
                   w_trace := w_trace (world_of rp) |})
      as (l2 & Ht2 & _ & Hp2 & _).
    cbn [w_trace] in Ht2.
    split.
    + exists (l1 ++ [EvRead (last_position s) c]). split.
      * rewrite Ht1, <- app_assoc. reflexivity.
      * rewrite existsb_app, Hp1. cbn [existsb is_post orb].
        rewrite orb_false_r. apply andb_comm.
    + exists (EvSleep (check_interval (bot_of rp)) :: l2 ++ l1
              ++ [EvRead (last_position s) c]). split.
      * unfold r. rewrite loop_iteration_run. fold rp.
        cbn zeta. unfold world_of at 1. cbn [snd w_trace].
        fold now. rewrite Ht2, Ht1. unfold polled. cbn [w_trace app].
        rewrite <- !app_assoc. reflexivity.
      * cbn [existsb is_post orb]. rewrite !existsb_app, Hp2, Hp1.
        cbn [existsb is_post orb]. rewrite orb_false_r. unfold should_flush.
        destruct Hb1 as [-> | [He Hx]].
        -- destruct (is_empty (pending_logs s1)) eqn:Hemp.
           ++ rewrite (time_due_is_empty now s1 Hemp).
              destruct (size_due s1); reflexivity.
           ++ destruct (time_due now s1), (size_due s1); reflexivity.
        -- rewrite (time_due_empty now _ He). rewrite Hp1 in Hx.
           rewrite Hx. apply andb_true_iff in Hx. destruct Hx as [Hs Hn].
           rewrite Hs, Hn. reflexivity.
  - intros Hfail.
    destruct (process_new_lines_fails E s w Hfail) as (e & He & Hrp).
    fold rp in Hrp.
    assert (Hpost : is_post e = false) by (destruct He as [-> | ->]; reflexivity).
    destruct (when_flush_effect E (time_due now (bot_of rp)) (bot_of rp)
                {| w_step := S (w_step (world_of rp));
                   w_trace := w_trace (world_of rp) |})
      as (l2 & Ht2 & _ & Hp2 & _).
    cbn [w_trace] in Ht2.
    split.
    + exists [e]. rewrite Hrp. unfold world_of. cbn [snd polled w_trace].
      split; [reflexivity |]. cbn [existsb]. rewrite Hpost. reflexivity.
    + exists (EvSleep (check_interval (bot_of rp)) :: l2 ++ [e]). split.
      * unfold r. rewrite loop_iteration_run. fold rp.
        cbn zeta. unfold world_of at 1. cbn [snd w_trace].
        fold now. rewrite Ht2. rewrite Hrp at 2.
        unfold world_of. cbn [snd polled w_trace app].
        rewrite <- app_assoc. reflexivity.
      * cbn [existsb is_post orb]. rewrite existsb_app, Hp2.
        cbn [existsb]. rewrite Hpost, !orb_false_r, time_due_nonempty.
        rewrite Hrp. reflexivity.
Qed.

End Triggers.

Lemma flush_triggers_witness :
  let text := py "INFO ok" ++ nl ++ py "ERROR disk full" ++ nl in
  let s1 := after_lines sample_bot sample_log_1 text in
  let s := bot_of stuck in
  let w := world_of stuck in
  (exists l,
     w_trace (world_of (loop_iteration sample_env sample_bot world0))
     = l ++ w_trace world0
     /\ existsb is_post l
        = negb (is_empty (pending_logs s1)) && should_flush 100 s1)
  /\ read_fails vanishing_env s w
  /\ (exists l,
        w_trace (world_of (loop_iteration vanishing_env s w)) = l ++ w_trace w
        /\ existsb is_post l = time_due 100 s).
Proof.
  intros text s1 s w.
  assert (Hf : env_file sample_env (w_step world0) = Present sample_log_1)
    by reflexivity.
  assert (Hd : utf8_decode (skipn (last_position sample_bot) sample_log_1)
               = Some text) by reflexivity.
  assert (Hfail : read_fails vanishing_env s w) by (vm_compute; exact I).
  split; [| split; [exact Hfail |]].
  - exact (proj2 (proj1 (flush_triggers sample_env sample_bot world0)
                    sample_log_1 text Hf Hd)).
  - exact (proj2 (proj2 (flush_triggers vanishing_env s w) Hfail)).
Defined.

(** C6, as stated, fails: after the refused flush of the second poll
    two entries are pending with [batch_size] 2, so the size condition
    holds; the file is then gone, and the third iteration only looks
    for the file and sleeps, posting nothing. *)
Lemma size_flush_skipped_without_file :
  let s := bot_of stuck in
  let w := world_of stuck in
  let rp := process_new_lines vanishing_env s w in
  let now := env_time vanishing_env (w_step (world_of rp)) in
  let r := loop_iteration vanishing_env s w in
  length (pending_logs s) = 2
  /\ batch_size s = 2%Z
  /\ size_due s = true
  /\ negb (is_empty (pending_logs s)) && should_flush now s = true
  /\ new_events w (world_of r) = [EvSleep 1; EvNoFile]
  /\ existsb is_post (new_events w (world_of r)) = false.
Proof. vm_compute. repeat split; reflexivity. Qed.

(** ** The offset across iterations *)

Section Offset.

Context {RE : RegexEngine}.
Variable E : Env.

Lemma reads_of_app (l t : list event) :
  reads_of (l ++ t) = reads_of l ++ reads_of t.
Proof.
  induction l as [| e l IH]; [reflexivity |].
  destruct e; simpl; rewrite IH; reflexivity.
Qed.

Lemma read_or_fail (s : Bot RE) (w : World) :
  read_fails E s w
  \/ exists c text,
       env_file E (w_step w) = Present c
       /\ utf8_decode (skipn (last_position s) c) = Some text.
Proof.
  unfold read_fails. destruct (env_file E (w_step w)) as [| | c];
    [now left | now left |].
  destruct (utf8_decode (skipn (last_position s) c)) as [text |] eqn:Hd;
    [right; exists c, text; split; [reflexivity | exact Hd] | now left].
Qed.

(** The effect of one poll on the offset and on the recorded reads. *)
Lemma process_new_lines_reads (s : Bot RE) (w : World) :
  let r := process_new_lines E s w in
  w_step w < w_step (world_of r)
  /\ ((reads_of (w_trace (world_of r)) = reads_of (w_trace w)
       /\ last_position (bot_of r) = last_position s)
      \/ exists c,
           env_file E (w_step w) = Present c
           /\ reads_of (w_trace (world_of r))
              = (last_position s, c) :: reads_of (w_trace w)
           /\ last_position (bot_of r)
              = tell_after_read (last_position s) (length c)).
Proof.
  intros r. unfold r.
  destruct (read_or_fail s w) as [Hfail | (c & text & Hf & Hd)].
  - destruct (process_new_lines_fails E s w Hfail) as (e & He & ->).
    unfold bot_of, world_of. cbn [fst snd polled w_step w_trace].
    split; [lia |]. left. split; [| reflexivity].
    destruct He as [-> | ->]; reflexivity.
  - rewrite (process_new_lines_read E s w Hf Hd).
    destruct (when_flush_effect E (size_due (after_lines s c text))
                (after_lines s c text)
                (polled (EvRead (last_position s) c) w))
      as (l & Ht & Hr & _ & Hs & Hl & _).
    cbn [polled w_step w_trace] in Ht, Hs.
    split; [lia |]. right. exists c. split; [exact Hf |].
    rewrite Ht, reads_of_app, Hr, Hl. split; reflexivity.
Qed.

(** The effect of one iteration of the loop. *)
Lemma loop_iteration_reads (s : Bot RE) (w : World) :
  let r := loop_iteration E s w in
  w_step w < w_step (world_of r)
  /\ ((reads_of (w_trace (world_of r)) = reads_of (w_trace w)
       /\ last_position (bot_of r) = last_position s)
      \/ exists c,
           env_file E (w_step w) = Present c
           /\ reads_of (w_trace (world_of r))
              = (last_position s, c) :: reads_of (w_trace w)
           /\ last_position (bot_of r)
              = tell_after_read (last_position s) (length c)).
Proof.
  intros r. unfold r. rewrite loop_iteration_run. cbn zeta.
  destruct (process_new_lines_reads s w) as [Hstep Hcase].
  set (rp := process_new_lines E s w) in *.
  destruct (when_flush_effect E
              (time_due (env_time E (w_step (world_of rp))) (bot_of rp))
              (bot_of rp)
              {| w_step := S (w_step (world_of rp));
                 w_trace := w_trace (world_of rp) |})
    as (l & Ht & Hr & _ & Hs & Hl & _).
  set (rf := when _ _ _ _) in *.
  cbn [w_step w_trace] in Ht, Hs.
  rewrite world_of_tuple, bot_of_tuple. cbn [w_step w_trace reads_of].
  split; [lia |].
  rewrite Hl, Ht, reads_of_app, Hr. exact Hcase.
Qed.

Lemma monitor_loop_S (n : nat) (s : Bot RE) (w : World) :
  monitor_loop E (S n) s w
  = match val (loop_iteration E s w) with
    | Some e =>
      (Some e, bot_of (loop_iteration E s w), world_of (loop_iteration E s w))
    | None =>
      monitor_loop E n (bot_of (loop_iteration E s w))
                   (world_of (loop_iteration E s w))
    end.
Proof.
  cbn [monitor_loop]. unfold bind.
  destruct (loop_iteration E s w) as [[[e |] s1] w1]; reflexivity.
Qed.

(** More iterations go on from where fewer iterations arrived. *)
Lemma monitor_loop_continues (n : nat) :
  forall (m : nat) (s : Bot RE) (w : World),
    n <= m ->
    exists k,
      bot_of (monitor_loop E m s w)
      = bot_of (monitor_loop E k (bot_of (monitor_loop E n s w))
                             (world_of (monitor_loop E n s w)))
      /\ world_of (monitor_loop E m s w)
         = world_of (monitor_loop E k (bot_of (monitor_loop E n s w))
                                  (world_of (monitor_loop E n s w))).
Proof.
  induction n as [| n IH]; intros m s w Hnm.
  - exists m. split; reflexivity.
  - destruct m as [| m]; [lia |].
    rewrite !monitor_loop_S.
    destruct (val (loop_iteration E s w)) as [e |].
    + exists 0. split; reflexivity.
    + apply IH. lia.
Qed.

(** An invariant of the iteration is an invariant of the loop. *)
Lemma monitor_loop_invariant (P : Bot RE -> World -> Prop) :
  (forall s w, P s w ->
     P (bot_of (loop_iteration E s w)) (world_of (loop_iteration E s w))) ->
  forall n s w, P s w ->
    P (bot_of (monitor_loop E n s w)) (world_of (monitor_loop E n s w)).
Proof.
  intros Hstep. induction n as [| n IH]; intros s w H; [exact H |].
  rewrite monitor_loop_S.
  destruct (val (loop_iteration E s w)) as [e |].
  - rewrite bot_of_tuple, world_of_tuple. apply Hstep, H.
  - apply IH, Hstep, H.
Qed.

Lemma never_below_later (k k' p : nat) :
  k <= k' -> never_below E k p -> never_below E k' p.
Proof. intros Hk H j c Hj Hc. apply (H j c); [lia | exact Hc]. Qed.

Lemma loop_iteration_offset_le (s : Bot RE) (w : World) :
  last_position s <= last_position (bot_of (loop_iteration E s w)).
Proof.
  destruct (loop_iteration_reads s w) as [_ [[_ ->] | (c & _ & _ & ->)]];
    [lia | unfold tell_after_read; lia].
Qed.

Lemma monitor_loop_offset_le (n : nat) :
  forall (s : Bot RE) (w : World),
    last_position s <= last_position (bot_of (monitor_loop E n s w)).
Proof.
  induction n as [| n IH]; intros s w; [apply Nat.le_refl |].
  rewrite monitor_loop_S.
  destruct (val (loop_iteration E s w)) as [e |].
  - rewrite bot_of_tuple. apply loop_iteration_offset_le.
  - eapply Nat.le_trans; [apply (loop_iteration_offset_le s w) | apply IH].
Qed.

Lemma loop_iteration_offset_in_file (s : Bot RE) (w : World) :
  nonshrinking E ->
  offset_in_file E s w ->
  offset_in_file E (bot_of (loop_iteration E s w))
                 (world_of (loop_iteration E s w)).
Proof.
  intros Hns [Hnb Hw]. unfold offset_in_file.
  destruct (loop_iteration_reads s w)
    as [Hstep [[Hr Hl] | (c & Hf & Hr & Hl)]]; rewrite Hr, Hl.
  - split; [| exact Hw].
    apply never_below_later with (k := w_step w); [lia | exact Hnb].
  - assert (Hle : last_position s <= length c)
      by (apply (Hnb (w_step w) c); [lia | exact Hf]).
    unfold tell_after_read. rewrite (Nat.max_r _ _ Hle).
    split; [| simpl; lia].
    intros j c' Hj Hc'. apply (Hns (w_step w) j c c'); [lia | exact Hf | exact Hc'].
Qed.

(** C4: while the observed file never shrinks (and the offset starts
    within the file), the stored offset never decreases from one number
    of completed iterations to a larger one, it does not exceed the
    length the file had at the newest read, and it does not exceed the
    length of the file at any later look. *)
Theorem offset_monotone_within_file (s : Bot RE) (w : World) :
  nonshrinking E ->
  never_below E (w_step w) (last_position s) ->
  within_last_read (last_position s) (reads_of (w_trace w)) ->
  forall n m, n <= m ->
    let rn := monitor_loop E n s w in
    let rm := monitor_loop E m s w in
    last_position (bot_of rn) <= last_position (bot_of rm)
    /\ within_last_read (last_position (bot_of rm))
                        (reads_of (w_trace (world_of rm)))
    /\ never_below E (w_step (world_of rm)) (last_position (bot_of rm)).
Proof.
  intros Hns Hnb Hw n m Hnm rn rm. split.
  - unfold rn, rm.
    destruct (@monitor_loop_continues n m s w Hnm) as (k & -> & _).
    apply monitor_loop_offset_le.
  - assert (H : offset_in_file E (bot_of rm) (world_of rm)).
    { unfold rm. apply monitor_loop_invariant with (P := offset_in_file E).
      - intros s' w'. now apply loop_iteration_offset_in_file.
      - now split. }
    destruct H as [H1 H2]. now split.
Qed.

End Offset.

Lemma sample_env_append_only : append_only sample_env.
Proof.
  intros i j c c' Hij Hi Hj. cbn [env_file sample_env] in Hi, Hj.
  destruct (Nat.ltb_spec i 3), (Nat.ltb_spec j 3);
    injection Hi as <-; injection Hj as <-; try reflexivity; lia.
Qed.

Lemma append_only_nonshrinking (E : Env) :
  append_only E -> nonshrinking E.
Proof.
  intros H i j c c' Hij Hi Hj.
  pose proof (H i j c c' Hij Hi Hj) as Hp.
  apply (f_equal (@length byte)) in Hp. rewrite length_firstn in Hp. lia.
Qed.

Lemma offset_monotone_within_file_witness :
  let r1 := monitor_loop sample_env 1 sample_bot world0 in
  let r2 := monitor_loop sample_env 2 sample_bot world0 in
  last_position (bot_of r1) = 24
  /\ last_position (bot_of r2) = 38
  /\ last_position (bot_of r1) <= last_position (bot_of r2)
  /\ within_last_read (last_position (bot_of r2))
                      (reads_of (w_trace (world_of r2))).
Proof.
  intros r1 r2.
  assert (Hns : nonshrinking sample_env)
    by exact (append_only_nonshrinking sample_env_append_only).
  assert (Hnb : never_below sample_env (w_step world0)
                            (last_position sample_bot))
    by (intros j c _ _; apply Nat.le_0_l).
  assert (Hw : within_last_read (last_position sample_bot)
                                (reads_of (w_trace world0))) by exact I.
  destruct (@offset_monotone_within_file literal_engine sample_env
              sample_bot world0 Hns Hnb Hw 1 2 (le_S 1 1 (le_n 1)))
    as (H1 & H2 & _).
  split; [reflexivity | split; [reflexivity | split; [exact H1 | exact H2]]].
Defined.

(** ** No byte is read twice *)

Section NoDuplicates.

Context {RE : RegexEngine}.
Variable E : Env.

Lemma append_only_extends (i j : nat) (c c' : list byte) :
  append_only E -> i <= j ->
  env_file E i = Present c -> env_file E j = Present c' ->
  c' = c ++ skipn (length c) c'.
Proof.
  intros H Hij Hi Hj.
  transitivity (firstn (length c) c' ++ skipn (length c) c').
  - symmetry. apply firstn_skipn.
  - f_equal. exact (H i j c c' Hij Hi Hj).
Qed.

Lemma loop_iteration_tail_invariant (p0 : nat) (s : Bot RE) (w : World) :
  append_only E ->
  tail_invariant E p0 s w ->
  tail_invariant E p0 (bot_of (loop_iteration E s w))
                 (world_of (loop_iteration E s w)).
Proof.
  intros Hao (Hch & Hend & Hnb & Hlast). unfold tail_invariant.
  destruct (loop_iteration_reads E s w)
    as [Hstep [[Hr Hl] | (c' & Hf & Hr & Hl)]]; rewrite Hr, Hl; cbn zeta.
  - split; [exact Hch |]. split; [exact Hend |]. split.
    + apply never_below_later with (k := w_step w); [lia | exact Hnb].
    + destruct (reads_of (w_trace w)) as [| [off c] older]; [exact I |].
      destruct Hlast as (H1 & H2 & H3 & i & Hi & Hc).
      repeat split; try assumption. exists i. split; [lia | exact Hc].
  - assert (Hle : last_position s <= length c')
      by (apply (Hnb (w_step w) c'); [lia | exact Hf]).
    assert (Hmax : tell_after_read (last_position s) (length c') = length c')
      by (unfold tell_after_read; lia).
    split; [split; [exact Hend | exact Hch] |].
    split; [reflexivity |]. rewrite Hmax. split.
    + intros j c'' Hj Hc''.
      pose proof (append_only_nonshrinking Hao) as Hns.
      apply (Hns (w_step w) j c' c''); [lia | exact Hf | exact Hc''].
    + cbn [consumed].
      destruct (reads_of (w_trace w)) as [| [off c] older].
      * cbn [consumed end_of] in *. rewrite Hend in *.
        repeat split; try lia. exists (w_step w). split; [lia | exact Hf].
      * destruct Hlast as (H1 & H2 & H3 & i & Hi & Hc).
        assert (Hext : c' = c ++ skipn (length c) c')
          by (apply (append_only_extends (i := i) (j := w_step w) Hao);
              [lia | exact Hc | exact Hf]).
        assert (Hlen : length c <= length c').
        { rewrite Hext, length_app. lia. }
        split; [| split; [lia | split; [reflexivity |]]].
        -- rewrite H1, H3. rewrite Hext at 2. rewrite skipn_app.
           replace (p0 - length c) with 0 by lia. reflexivity.
        -- exists (w_step w). split; [lia | exact Hf].
Qed.

(** C5: a poll that reads the file decodes the bytes from the stored
    offset on and nothing before it.  While the observed file is only
    appended to (and the offset starts within it), every read of the
    loop starts at the offset stored after the read before it, the
    stored offset is the end of the newest read, and the bytes handed to
    the line loop by all reads, taken in order, are the file as it was
    at the newest read from the starting offset on: each byte once. *)
Theorem reads_never_repeat (s : Bot RE) (w : World) :
  append_only E ->
  never_below E (w_step w) (last_position s) ->
  reads_of (w_trace w) = [] ->
  (forall s' w' c text,
     env_file E (w_step w') = Present c ->
     utf8_decode (skipn (last_position s') c) = Some text ->
     process_new_lines E s' w'
     = when (size_due (after_lines s' c text)) (ignore (send_pending_logs E))
            (after_lines s' c text) (polled (EvRead (last_position s') c) w'))
  /\ forall n,
       let r := monitor_loop E n s w in
       let rs := reads_of (w_trace (world_of r)) in
       chained (last_position s) rs
       /\ last_position (bot_of r) = end_of (last_position s) rs
       /\ match rs with
          | [] => consumed rs = []
          | (_, c) :: _ => consumed rs = skipn (last_position s) c
          end.
Proof.
  intros Hao Hnb Hnone. split.
  - intros s' w' c text Hf Hd. now apply process_new_lines_read.
  - intros n r rs.
    assert (H : tail_invariant E (last_position s) (bot_of r)
                             (world_of r)).
    { unfold r.
      apply monitor_loop_invariant
        with (P := tail_invariant E (last_position s)).
      - intros s' w'. now apply loop_iteration_tail_invariant.
      - unfold tail_invariant. rewrite Hnone. cbn zeta.
        repeat split. exact Hnb. }
    destruct H as (H1 & H2 & _ & H4). fold rs in H1, H2, H4.
    split; [exact H1 | split; [exact H2 |]].
    destruct rs as [| [off c] older]; [reflexivity |].
    destruct H4 as [H4 _]. exact H4.
Qed.

End NoDuplicates.

Lemma reads_never_repeat_witness :
  let r := monitor_loop sample_env 2 sample_bot world0 in
  reads_of (w_trace (world_of r)) = [(24, sample_log_2); (0, sample_log_1)]
  /\ chained 0 (reads_of (w_trace (world_of r)))
  /\ last_position (bot_of r) = 38
  /\ consumed (reads_of (w_trace (world_of r))) = sample_log_2.
Proof.
  intros r.
  assert (Hnb : never_below sample_env (w_step world0)
                            (last_position sample_bot))
    by (intros j c _ _; apply Nat.le_0_l).
  destruct (@reads_never_repeat literal_engine sample_env sample_bot world0
              sample_env_append_only Hnb eq_refl) as [_ H].
  destruct (H 2) as (H1 & H2 & H3).
  assert (Hr : reads_of (w_trace (world_of r))
               = [(24, sample_log_2); (0, sample_log_1)])
    by (vm_compute; reflexivity).
  unfold r in *. clear r.
  split; [exact Hr | split; [exact H1 | split]].
  - rewrite H2, Hr. reflexivity.
  - rewrite Hr in H3. exact H3.
Defined.

(** ** Startup *)

Section Startup.

Context {RE : RegexEngine}.
Variable E : Env.

(** C8: when the connectivity probe fails, [run] makes that one request
    and returns; when the probe succeeds and the startup message is
    refused, [run] makes those two requests and returns.  In both cases
    this holds however long the process is left running: [self] is
    unchanged, the file is never looked at, nothing is repeated. *)
Theorem run_stops_on_startup_failure (ticks : nat) (s : Bot RE) (w : World) :
  (getme_ok (env_getme E (w_step w)) = false ->
   run E ticks s w
   = (None, s, {| w_step := S (w_step w);
                w_trace := EvGetMe false :: w_trace w |}))
  /\ (getme_ok (env_getme E (w_step w)) = true ->
      post_ok (env_post E (S (w_step w)) (test_msg s)) = false ->
      run E ticks s w
      = (None, s, {| w_step := S (S (w_step w));
                   w_trace := EvPost (test_msg s) false
                              :: EvGetMe true :: w_trace w |})).
Proof.
  split.
  - intros Hprobe.
    unfold run, test_connection. unfold bind, interact, emit, ret.
    cbn [w_step w_trace]. rewrite Hprobe. reflexivity.
  - intros Hprobe Hpost.
    unfold run, test_connection, send_telegram_message.
    unfold bind, interact, emit, ret, get.
    cbn [w_step w_trace]. rewrite Hprobe. cbn [negb w_step w_trace].
    rewrite Hpost. reflexivity.
Qed.

End Startup.

Lemma run_stops_on_startup_failure_witness :
  run offline_env 5 sample_bot world0
  = (None, sample_bot, {| w_step := 1; w_trace := [EvGetMe false] |})
  /\ run mute_env 5 sample_bot world0
     = (None, sample_bot,
        {| w_step := 2;
           w_trace := [EvPost (test_msg sample_bot) false; EvGetMe true] |})
  /\ existsb is_file_event
       (w_trace (world_of (run mute_env 5 sample_bot world0))) = false.
Proof.
  assert (H1 : getme_ok (env_getme offline_env (w_step world0)) = false)
    by reflexivity.
  assert (H2 : getme_ok (env_getme mute_env (w_step world0)) = true)
    by reflexivity.
  assert (H3 : post_ok (env_post mute_env (S (w_step world0))
                          (test_msg sample_bot)) = false)
    by reflexivity.
  pose proof (proj1 (run_stops_on_startup_failure offline_env 5 sample_bot
                       world0) H1) as Ha.
  pose proof (proj2 (run_stops_on_startup_failure mute_env 5 sample_bot
                       world0) H2 H3) as Hb.
  split; [exact Ha | split; [exact Hb |]].
  rewrite Hb. reflexivity.
Defined.

(** When both startup requests succeed the loop is entered: with the
    sample world, two iterations and the interrupt, the bot reads the
    file twice, posts the batch and then the stop message. *)
Example run_enters_loop :
  let r := run sample_env 2 sample_bot world0 in
  map (fun e => match e with
                | EvGetMe _ => 0 | EvPost _ _ => 1 | EvNoFile => 2
                | EvReadFailed => 3 | EvRead _ _ => 4 | EvSleep _ => 5
                end) (rev (w_trace (world_of r)))
  = [0; 1; 4; 5; 4; 1; 5; 1]
  /\ total_logs_sent (bot_of r) = 2.
Proof. vm_compute. split; reflexivity. Qed.

(** ** Further properties: compiling the filters *)

Section CompileFilters.

Context {RE : RegexEngine}.

Lemma compile_filters_cons_ok (fc : FilterConfig) (rest : list FilterConfig) :
  rule_failure fc = None ->
  (exists e, compile_filters (fc :: rest) = inl e
             /\ compile_filters rest = inl e)
  \/ (exists fs fs', compile_filters (fc :: rest) = inr fs
                     /\ compile_filters rest = inr fs'
                     /\ length fs <= (if fc_is_enabled fc then 1 else 0)
                                     + length fs').
Proof.
  unfold rule_failure. cbn [compile_filters].
  destruct (fc_is_enabled fc).
  - destruct (fc_name fc) as [name |]; [| discriminate].
    destruct (fc_pattern fc) as [p |]; [| discriminate].
    destruct (re_compile p) as [r | | e0]; [| | discriminate]; intros _;
      destruct (compile_filters rest) as [e | fs'] eqn:Hrest.
    + left. exists e. split; reflexivity.
    + right. exists ({| f_name := name; f_pattern := r |} :: fs'), fs'.
      repeat split. simpl. lia.
    + left. exists e. split; reflexivity.
    + right. exists fs', fs'. repeat split. lia.
  - intros _. destruct (compile_filters rest) as [e | fs'] eqn:Hrest.
    + left. exists e. split; reflexivity.
    + right. exists fs', fs'. repeat split. lia.
Qed.

Lemma compile_filters_cons_failure (fc : FilterConfig)
  (rest : list FilterConfig) (e : exn) :
  rule_failure fc = Some e ->
  compile_filters (fc :: rest) = inl e.
Proof.
  unfold rule_failure. cbn [compile_filters].
  destruct (fc_is_enabled fc); [| discriminate].
  destruct (fc_name fc) as [name |]; [| intros [= <-]; reflexivity].
  destruct (fc_pattern fc) as [p |]; [| intros [= <-]; reflexivity].
  destruct (re_compile p) as [r | | e0]; try discriminate.
  intros [= <-]. reflexivity.
Qed.

(** X1: [compile_filters] ends with an exception exactly when some
    enabled rule lacks ['name'] or ['pattern'] or has a pattern on which
    [re.compile] raises something other than [re.error]; the exception
    is that of the first such rule ([KeyError] for ['name'] before
    ['pattern'], else the exception of [re.compile]).  A disabled rule
    and a pattern rejected with [re.error] never make it raise.  When
    it returns, it returns at most one filter per enabled rule. *)
Theorem compile_filters_failures (fcs : list FilterConfig) :
  (forall e, compile_filters fcs = inl e <-> first_failure fcs = Some e)
  /\ ((exists fs, compile_filters fcs = inr fs)
      <-> first_failure fcs = None)
  /\ (forall fs, compile_filters fcs = inr fs ->
                 length fs <= length (filter fc_is_enabled fcs)).
Proof.
  induction fcs as [| fc rest (IH1 & IH2 & IH3)].
  - split; [| split].
    + intros e. split; discriminate.
    + split; [reflexivity | intros _; now exists []].
    + intros fs [= <-]. apply Nat.le_refl.
  - cbn [first_failure].
    destruct (rule_failure fc) as [e0 |] eqn:Hm.
    + rewrite (compile_filters_cons_failure fc rest Hm).
      split; [| split].
      * intros e. split; intros [= ->]; reflexivity.
      * split; [intros [fs H] | ]; discriminate.
      * discriminate.
    + destruct (compile_filters_cons_ok fc rest Hm)
        as [(e & -> & Hrest) | (fs & fs' & -> & Hrest & Hlen)].
      * split; [| split].
        -- intros e'. rewrite <- IH1, Hrest. reflexivity.
        -- rewrite <- IH2, Hrest. split; intros [fs H]; discriminate.
        -- discriminate.
      * split; [| split].
        -- intros e'. rewrite <- IH1, Hrest. split; discriminate.
        -- rewrite <- IH2. split; intros _; [now exists fs' | now exists fs].
        -- intros fs0 [= <-]. specialize (IH3 fs' Hrest).
           cbn [filter]. destruct (fc_is_enabled fc); simpl in *; lia.
Qed.

End CompileFilters.

Lemma compile_filters_failures_witness :
  @first_failure literal_engine keyless_filters
  = Some (KeyError (py "pattern"))
  /\ @compile_filters literal_engine keyless_filters
     = inl (KeyError (py "pattern"))
  /\ @first_failure literal_engine overflow_filters
     = Some (Uncaught (py "OverflowError"))
  /\ @compile_filters literal_engine overflow_filters
     = inl (Uncaught (py "OverflowError")).
Proof.
  assert (H1 : @first_failure literal_engine keyless_filters
               = Some (KeyError (py "pattern"))) by reflexivity.
  assert (H2 : @first_failure literal_engine overflow_filters
               = Some (Uncaught (py "OverflowError"))) by reflexivity.
  split; [exact H1 | split; [| split; [exact H2 |]]].
  - exact (proj2 (proj1 (@compile_filters_failures literal_engine
                           keyless_filters) _) H1).
  - exact (proj2 (proj1 (@compile_filters_failures literal_engine
                           overflow_filters) _) H2).
Defined.

(** ** Further properties: the line loop *)

Section LineLoop.

Context {RE : RegexEngine}.
Variable E : Env.

(** X2: the pair returned by [check_log_match] is consistent: the flag
    is true exactly when a name comes with it, and that name is the name
    of one of the filters. *)
Theorem check_log_match_pair (fs : list (Filter RE)) (line : pystr) :
  (exists name, check_log_match fs line = (true, Some name)
                /\ In name (map (@f_name RE) fs))
  \/ check_log_match fs line = (false, None).
Proof.
  induction fs as [| f fs IH]; [now right |].
  cbn [check_log_match map]. destruct (re_search (f_pattern f) line).
  - left. exists (f_name f). split; [reflexivity | now left].
  - destruct IH as [(name & Hm & Hin) | Hn]; [left | now right].
    exists name. split; [exact Hm | now right].
Qed.

Lemma process_line_app (fs : list (Filter RE)) (acc : list pystr)
  (raw : pystr) :
  process_line fs acc raw = acc ++ process_line fs [] raw.
Proof.
  unfold process_line. destruct (is_empty (strip raw));
    [now rewrite app_nil_r |].
  destruct (check_log_match fs (strip raw)) as [[|] [name |]];
    try now rewrite app_nil_r.
  reflexivity.
Qed.

Lemma fold_process_line_app (fs : list (Filter RE)) (lines : list pystr) :
  forall acc,
    fold_left (process_line fs) lines acc = acc ++ matched_entries fs lines.
Proof.
  unfold matched_entries.
  induction lines as [| l lines IH]; intros acc; cbn [fold_left flat_map].
  - now rewrite app_nil_r.
  - rewrite IH, (process_line_app fs acc l), <- app_assoc. reflexivity.
Qed.

Lemma process_line_entry (fs : list (Filter RE)) (raw entry : pystr) :
  In entry (process_line fs [] raw)
  <-> exists name,
        strip raw <> []
        /\ check_log_match fs (strip raw) = (true, Some name)
        /\ entry = py "[" ++ name ++ py "]" ++ nl ++ strip raw.
Proof.
  unfold process_line. destruct (strip raw) as [| ch rest] eqn:Hs.
  - cbn [is_empty]. split; [intros [] | intros (name & H & _); congruence].
  - cbn [is_empty].
    destruct (check_log_match fs (ch :: rest)) as [[|] [name |]] eqn:Hm.
    + split.
      * intros [<- | []]. exists name. repeat split. discriminate.
      * intros (name' & _ & [= <-] & ->). now left.
    + split; [intros [] | intros (name' & _ & H & _); discriminate].
    + split; [intros [] | intros (name' & _ & H & _); discriminate].
    + split; [intros [] | intros (name' & _ & H & _); discriminate].
Qed.

Lemma process_line_length (fs : list (Filter RE)) (raw : pystr) :
  length (process_line fs [] raw) <= 1.
Proof.
  unfold process_line. destruct (is_empty (strip raw)); [simpl; lia |].
  destruct (check_log_match fs (strip raw)) as [[|] [name |]]; simpl; lia.
Qed.

(** X3: the [for] loop over the new lines appends to the pending
    entries, keeping those already there, one entry per line whose
    stripped text is non-empty and matches a filter, in the order of the
    lines; the entry is ["[name]\nline"] with the stripped line.  Blank
    lines and lines no filter matches add nothing. *)
Theorem line_loop_appends_matches (fs : list (Filter RE))
  (lines acc : list pystr) :
  fold_left (process_line fs) lines acc = acc ++ matched_entries fs lines
  /\ (forall entry,
        In entry (matched_entries fs lines)
        <-> exists raw name,
              In raw lines
              /\ strip raw <> []
              /\ check_log_match fs (strip raw) = (true, Some name)
              /\ entry = py "[" ++ name ++ py "]" ++ nl ++ strip raw)
  /\ length (matched_entries fs lines) <= length lines.
Proof.
  split; [apply fold_process_line_app | split].
  - intros entry. unfold matched_entries. rewrite in_flat_map. split.
    + intros (raw & Hin & He). apply process_line_entry in He.
      destruct He as (name & H1 & H2 & H3). now exists raw, name.
    + intros (raw & name & Hin & H1 & H2 & H3). exists raw.
      split; [exact Hin |]. apply process_line_entry. now exists name.
  - unfold matched_entries. induction lines as [| l lines IH]; [apply Nat.le_refl |].
    cbn [flat_map length]. rewrite length_app.
    pose proof (process_line_length fs l). lia.
Qed.

Lemma after_lines_nothing (s : Bot RE) (c : list byte) :
  length c <= last_position s -> after_lines s c [] = s.
Proof.
  intros H. unfold after_lines, tell_after_read.
  rewrite (Nat.max_l _ _ H). destruct s; reflexivity.
Qed.

(** X4: a poll that finds the file no longer than the stored offset
    (nothing was appended, or the file was truncated or replaced by a
    shorter one) reads no line: the offset and the pending entries stay
    as they are, whatever the file now holds, and the poll goes on to
    its size test on the unchanged state. *)
Theorem poll_of_short_file_reads_nothing (s : Bot RE) (w : World)
  (c : list byte) :
  env_file E (w_step w) = Present c ->
  length c <= last_position s ->
  process_new_lines E s w
  = when (size_due s) (ignore (send_pending_logs E))
         s (polled (EvRead (last_position s) c) w).
Proof.
  intros Hf Hlen.
  assert (Hd : utf8_decode (skipn (last_position s) c) = Some [])
    by (rewrite skipn_all2 by exact Hlen; reflexivity).
  rewrite (process_new_lines_read E s w Hf Hd).
  rewrite (after_lines_nothing s c Hlen). reflexivity.
Qed.

End LineLoop.

Lemma poll_of_short_file_reads_nothing_witness :
  length rotated_log <= last_position advanced_bot
  /\ process_new_lines rotated_env advanced_bot world0
     = (tt, advanced_bot, polled (EvRead 38 rotated_log) world0).
Proof.
  assert (Hf : env_file rotated_env (w_step world0) = Present rotated_log)
    by reflexivity.
  assert (Hlen : length rotated_log <= last_position advanced_bot)
    by (vm_compute; lia).
  split; [exact Hlen |].
  rewrite (poll_of_short_file_reads_nothing rotated_env advanced_bot world0
             Hf Hlen).
  reflexivity.
Defined.

(** ** Further properties: accounting of entries *)

Section Accounting.

Context {RE : RegexEngine}.
Variable E : Env.

(** What a flush keeps, whatever its outcome. *)
Lemma send_pending_logs_summary (s : Bot RE) (w : World) :
  let r := send_pending_logs E s w in
  filters (bot_of r) = filters s
  /\ total_logs_sent (bot_of r) + length (pending_logs (bot_of r))
     = total_logs_sent s + length (pending_logs s)
  /\ val r = is_empty (pending_logs (bot_of r))
  /\ (flush_accepted E s w = false -> bot_of r = s)
  /\ exists l,
       w_trace (world_of r) = l ++ w_trace w
       /\ Forall short_post l
       /\ reads_of l = []
       /\ length (filter is_post l)
          = (if is_empty (pending_logs s) then 0 else 1).
Proof.
  intros r. unfold r. destruct (pending_logs s) as [| x xs] eqn:Hp.
  - rewrite (send_pending_logs_empty E s w Hp).
    rewrite val_tuple, bot_of_tuple, world_of_tuple, Hp.
    repeat split. exists []. repeat split. constructor.
  - assert (Hne : pending_logs s <> []) by (rewrite Hp; discriminate).
    assert (Hshort : short_post (EvPost (flush_message E s w) true)
                     /\ short_post (EvPost (flush_message E s w) false))
      by (split; apply truncate_length_le).
    destruct (flush_accepted E s w) eqn:Ha.
    + rewrite (send_pending_logs_accepted E s w Hne Ha).
      rewrite val_tuple, bot_of_tuple, world_of_tuple.
      cbn [filters total_logs_sent pending_logs w_trace
           set_last_send_time set_pending_logs set_total_logs_sent
           is_empty length].
      split; [reflexivity |]. split; [rewrite Hp; simpl; lia |].
      split; [reflexivity |]. split; [discriminate |].
      exists [EvPost (flush_message E s w) true].
      repeat split. constructor; [apply Hshort | constructor].
    + rewrite (send_pending_logs_refused E s w Hne Ha).
      rewrite val_tuple, bot_of_tuple, world_of_tuple, Hp.
      cbn [w_trace is_empty].
      repeat split.
      exists [EvPost (flush_message E s w) false].
      repeat split. constructor; [apply Hshort | constructor].
Qed.

(** X5: [send_pending_logs] returns True exactly when no entry is
    pending when it returns; it posts one message when entries were
    pending and none otherwise; and whatever the outcome, the number
    counted as sent plus the number still pending is what it was. *)
Theorem send_pending_logs_result (s : Bot RE) (w : World) :
  let r := send_pending_logs E s w in
  val r = is_empty (pending_logs (bot_of r))
  /\ total_logs_sent (bot_of r) + length (pending_logs (bot_of r))
     = total_logs_sent s + length (pending_logs s)
  /\ exists l,
       w_trace (world_of r) = l ++ w_trace w
       /\ length (filter is_post l)
          = (if is_empty (pending_logs s) then 0 else 1).
Proof.
  intros r. destruct (send_pending_logs_summary s w)
    as (_ & H2 & H3 & _ & l & H5 & _ & _ & H8).
  split; [exact H3 | split; [exact H2 |]].
  exists l. now split.
Qed.

Lemma always_refused_flush (s : Bot RE) (w : World) :
  always_refused E -> flush_accepted E s w = false.
Proof. intros H. apply H. Qed.

(** The same for a flush behind a test. *)
Lemma when_flush_summary (b : bool) (s : Bot RE) (w : World) :
  let r := when b (ignore (send_pending_logs E)) s w in
  filters (bot_of r) = filters s
  /\ total_logs_sent (bot_of r) + length (pending_logs (bot_of r))
     = total_logs_sent s + length (pending_logs s)
  /\ (always_refused E -> bot_of r = s)
  /\ exists l,
       w_trace (world_of r) = l ++ w_trace w
       /\ Forall short_post l
       /\ reads_of l = [].
Proof.
  intros r. unfold r, when. destruct b.
  - unfold ignore, bind, ret.
    destruct (send_pending_logs_summary s w)
      as (H1 & H2 & _ & H4 & l & H5 & H6 & H7 & _).
    destruct (send_pending_logs E s w) as [[v s'] w'].
    rewrite bot_of_tuple, world_of_tuple in *.
    split; [exact H1 | split; [exact H2 | split]].
    + intros Hr. apply H4, always_refused_flush, Hr.
    + now exists l.
  - unfold ret. rewrite bot_of_tuple, world_of_tuple.
    repeat split. exists []. repeat split. constructor.
Qed.

(** What one iteration of the loop does to the entries: [added] are the
    entries of the lines it read. *)
Lemma loop_iteration_summary (s : Bot RE) (w : World) :
  let r := loop_iteration E s w in
  filters (bot_of r) = filters s
  /\ (exists l, w_trace (world_of r) = l ++ w_trace w /\ Forall short_post l)
  /\ exists added,
       entries_of_reads (filters s) (reads_of (w_trace (world_of r)))
       = entries_of_reads (filters s) (reads_of (w_trace w)) ++ added
       /\ total_logs_sent (bot_of r) + length (pending_logs (bot_of r))
          = total_logs_sent s + length (pending_logs s) + length added
       /\ (always_refused E ->
           pending_logs (bot_of r) = pending_logs s ++ added
           /\ total_logs_sent (bot_of r) = total_logs_sent s).
Proof.
  intros r. unfold r. rewrite loop_iteration_run. cbn zeta.
  set (rp := process_new_lines E s w).
  set (now := env_time E (w_step (world_of rp))).
  destruct (when_flush_summary (time_due now (bot_of rp)) (bot_of rp)
              {| w_step := S (w_step (world_of rp));
                 w_trace := w_trace (world_of rp) |})
    as (F1 & F2 & F3 & l2 & F4 & F5 & F6).
  set (rf := when _ _ _ _) in *.
  cbn [w_trace] in F4.
  rewrite bot_of_tuple, world_of_tuple. cbn [w_trace reads_of].
  assert (Hp :
    filters (bot_of rp) = filters s
    /\ (exists l1, w_trace (world_of rp) = l1 ++ w_trace w
                   /\ Forall short_post l1)
    /\ exists added,
         entries_of_reads (filters s) (reads_of (w_trace (world_of rp)))
         = entries_of_reads (filters s) (reads_of (w_trace w)) ++ added
         /\ total_logs_sent (bot_of rp) + length (pending_logs (bot_of rp))
            = total_logs_sent s + length (pending_logs s) + length added
         /\ (always_refused E ->
             pending_logs (bot_of rp) = pending_logs s ++ added
             /\ total_logs_sent (bot_of rp) = total_logs_sent s)).
  { unfold rp.
    destruct (read_or_fail E s w) as [Hfail | (c & text & Hf & Hd)].
    - destruct (process_new_lines_fails E s w Hfail) as (e & He & ->).
      rewrite bot_of_tuple, world_of_tuple. cbn [polled w_trace].
      split; [reflexivity |]. split.
      + exists [e]. split; [reflexivity |].
        constructor; [destruct He as [-> | ->]; exact I | constructor].
      + exists []. rewrite !app_nil_r. cbn [length]. rewrite Nat.add_0_r.
        split; [destruct He as [-> | ->]; reflexivity |].
        split; [reflexivity | intros _; now split].
    - rewrite (process_new_lines_read E s w Hf Hd).
      destruct (when_flush_summary (size_due (after_lines s c text))
                  (after_lines s c text)
                  (polled (EvRead (last_position s) c) w))
        as (G1 & G2 & G3 & l1 & G4 & G5 & G6).
      set (rq := when _ _ _ _) in *.
      cbn [polled w_trace] in G4.
      assert (Hal : pending_logs (after_lines s c text)
                    = pending_logs s
                      ++ matched_entries (filters s) (readlines text))
        by apply fold_process_line_app.
      split; [exact G1 |]. split.
      + exists (l1 ++ [EvRead (last_position s) c]).
        rewrite G4, <- app_assoc. split; [reflexivity |].
        apply Forall_app. split; [exact G5 |].
        constructor; [exact I | constructor].
      + exists (matched_entries (filters s) (readlines text)).
        rewrite G4, reads_of_app, G6. cbn [app reads_of entries_of_reads].
        rewrite Hd. split; [reflexivity |]. split.
        * rewrite G2, Hal, length_app.
          cbn [after_lines total_logs_sent set_last_position
               set_pending_logs]. lia.
        * intros Hr. rewrite (G3 Hr). split; [exact Hal | reflexivity]. }
  destruct Hp as (P1 & (l1 & P2 & P3) & added & P4 & P5 & P6).
  split; [now rewrite F1 |]. split.
  - exists (EvSleep (check_interval (bot_of rp)) :: l2 ++ l1).
    rewrite F4, P2. cbn [app]. rewrite <- app_assoc.
    split; [reflexivity |].
    constructor; [exact I |]. apply Forall_app. now split.
  - exists added. rewrite F4, reads_of_app, F6. cbn [app].
    split; [exact P4 |]. split; [now rewrite F2 |].
    intros Hr. rewrite (F3 Hr). now apply P6.
Qed.

Lemma accounted_start (s0 : Bot RE) (w0 : World) :
  reads_of (w_trace w0) = [] -> accounted E s0 w0 s0 w0.
Proof.
  intros H. unfold accounted. rewrite H. cbn [entries_of_reads length].
  rewrite app_nil_r, Nat.add_0_r. repeat split.
  exists []. split; [reflexivity | constructor].
Qed.

Lemma accounted_step (s0 : Bot RE) (w0 : World) (s : Bot RE) (w : World) :
  accounted E s0 w0 s w ->
  accounted E s0 w0 (bot_of (loop_iteration E s w))
            (world_of (loop_iteration E s w)).
Proof.
  intros (A1 & A2 & (l & A3 & A4) & A5).
  destruct (loop_iteration_summary s w)
    as (B1 & (l' & B2 & B3) & added & B4 & B5 & B6).
  unfold accounted. rewrite A1 in B4. rewrite B4.
  split; [now rewrite B1 |]. split; [rewrite B5, A2, length_app; lia |].
  split.
  - exists (l' ++ l). rewrite B2, A3, app_assoc. split; [reflexivity |].
    apply Forall_app. now split.
  - intros Hr. destruct (A5 Hr) as [A6 A7]. destruct (B6 Hr) as [B7 B8].
    rewrite B7, B8, A6, A7, app_assoc. now split.
Qed.

Lemma monitor_loop_accounted (n : nat) (s : Bot RE) (w : World) :
  reads_of (w_trace w) = [] ->
  accounted E s w (bot_of (monitor_loop E n s w))
            (world_of (monitor_loop E n s w)).
Proof.
  intros H.
  apply (monitor_loop_invariant E (accounted E s w)).
  - intros s' w'. apply accounted_step.
  - now apply accounted_start.
Qed.

End Accounting.

Section LoopAccounting.

Context {RE : RegexEngine}.
Variable E : Env.

(** X6: over any number of iterations of the loop, every entry produced
    by the lines read is either still pending or counted in
    [total_logs_sent]: the sum of the two grows by exactly the number of
    entries of the reads made, [total_logs_sent] never decreases, and
    the filters stay those the bot started with. *)
Theorem monitor_loop_conserves_entries (s : Bot RE) (w : World) (n : nat) :
  reads_of (w_trace w) = [] ->
  let r := monitor_loop E n s w in
  total_logs_sent (bot_of r) + length (pending_logs (bot_of r))
  = total_logs_sent s + length (pending_logs s)
    + length (entries_of_reads (filters s)
                (reads_of (w_trace (world_of r))))
  /\ filters (bot_of r) = filters s.
Proof.
  intros H r. destruct (monitor_loop_accounted E n s w H)
    as (A1 & A2 & _ & _).
  split; [exact A2 | exact A1].
Qed.


(** X8: every text the loop posts, in any number of iterations, has at
    most 4016 characters. *)
Theorem monitor_loop_posts_are_short (s : Bot RE) (w : World) (n : nat) :
  exists l,
    w_trace (world_of (monitor_loop E n s w)) = l ++ w_trace w
    /\ Forall short_post l.
Proof.
  revert s w. induction n as [| n IH]; intros s w.
  - exists []. split; [reflexivity | constructor].
  - rewrite monitor_loop_S.
    destruct (loop_iteration_summary E s w) as (_ & (l1 & H1 & H2) & _).
    destruct (val (loop_iteration E s w)) as [e |].
    + rewrite world_of_tuple. now exists l1.
    + destruct (IH (bot_of (loop_iteration E s w))
                   (world_of (loop_iteration E s w))) as (l2 & H3 & H4).
      exists (l2 ++ l1). rewrite H3, H1, app_assoc. split; [reflexivity |].
      apply Forall_app. now split.
Qed.

(** X9: the stored offset never decreases from one number of completed
    iterations to a larger one, whatever happens to the file: also when
    it shrinks, disappears or cannot be read. *)
Theorem offset_never_decreases (s : Bot RE) (w : World) (n m : nat) :
  n <= m ->
  last_position s <= last_position (bot_of (monitor_loop E n s w))
  /\ last_position (bot_of (monitor_loop E n s w))
     <= last_position (bot_of (monitor_loop E m s w)).
Proof.
  intros Hnm. split; [apply monitor_loop_offset_le |].
  destruct (@monitor_loop_continues RE E n m s w Hnm) as (k & -> & _).
  apply monitor_loop_offset_le.
Qed.

End LoopAccounting.


Lemma monitor_loop_conserves_entries_witness :
  let r := monitor_loop sample_env 2 sample_bot world0 in
  total_logs_sent (bot_of r) = 2
  /\ pending_logs (bot_of r) = []
  /\ length (entries_of_reads (filters sample_bot)
               (reads_of (w_trace (world_of r)))) = 2.
Proof.
  intros r.
  destruct (@monitor_loop_conserves_entries literal_engine sample_env
              sample_bot world0 2 eq_refl) as [H _].
  fold r in H.
  assert (Ht : total_logs_sent (bot_of r) = 2) by (vm_compute; reflexivity).
  assert (Hp : pending_logs (bot_of r) = []) by (vm_compute; reflexivity).
  split; [exact Ht | split; [exact Hp |]].
  rewrite Ht, Hp in H. cbn [length] in H.
  change (total_logs_sent sample_bot) with 0 in H.
  change (pending_logs sample_bot) with (@nil pystr) in H.
  cbn [length] in H. lia.
Defined.


Lemma offset_never_decreases_witness :
  last_position (bot_of (monitor_loop vanishing_env 2 sample_bot world0))
  <= last_position (bot_of (monitor_loop vanishing_env 3 sample_bot world0))
  /\ last_position (bot_of (monitor_loop vanishing_env 3 sample_bot world0))
     = 38.
Proof.
  split; [| vm_compute; reflexivity].
  exact (proj2 (@offset_never_decreases literal_engine vanishing_env
                  sample_bot world0 2 3 (le_S 2 2 (le_n 2)))).
Defined.

(** ** Further properties: one poll or two *)

Section PollSplit.

Context {RE : RegexEngine}.

Lemma cons_opt_some (c : char) (r : option pystr) (t : pystr) :
  cons_opt c r = Some t -> exists t', r = Some t' /\ t = c :: t'.
Proof.
  destruct r as [t' |]; [| discriminate].
  intros [= <-]. now exists t'.
Qed.

Ltac decode_step IH :=
  match goal with
  | H : cons_opt _ _ = Some _ |- _ =>
    apply cons_opt_some in H; destruct H as (? & H & ->);
    erewrite IH; [reflexivity | simpl in *; lia | exact H | eassumption]
  end.

(** Decoding is compositional over a split between two characters. *)
Lemma utf8_decode_app_fuel (n : nat) :
  forall a ta b tb,
    length a <= n ->
    utf8_decode a = Some ta ->
    utf8_decode b = Some tb ->
    utf8_decode (a ++ b) = Some (ta ++ tb).
Proof.
  induction n as [| n IH]; intros a ta b tb Hn Ha Hb.
  - destruct a; [| simpl in Hn; lia].
    injection Ha as <-. exact Hb.
  - destruct a as [| b1 t1]; [injection Ha as <-; exact Hb |].
    cbn [app utf8_decode] in Ha |- *. cbv zeta in Ha |- *.
    destruct (Byte.to_N b1 <? 128)%N; [decode_step IH |].
    destruct (in_range 194 223 (Byte.to_N b1)).
    { destruct t1 as [| b2 t2]; [discriminate |]. cbn [app].
      destruct (is_cont (Byte.to_N b2)); [decode_step IH | discriminate]. }
    destruct (in_range 224 239 (Byte.to_N b1)).
    { destruct t1 as [| b2 [| b3 t3]]; try discriminate. cbn [app].
      destruct (in_range _ _ (Byte.to_N b2) && is_cont (Byte.to_N b3));
        [decode_step IH | discriminate]. }
    destruct (in_range 240 244 (Byte.to_N b1)); [| discriminate].
    destruct t1 as [| b2 [| b3 [| b4 t4]]]; try discriminate. cbn [app].
    destruct (in_range _ _ (Byte.to_N b2) && is_cont (Byte.to_N b3)
              && is_cont (Byte.to_N b4));
      [decode_step IH | discriminate].
Qed.

Lemma utf8_decode_app (a b : list byte) (ta tb : pystr) :
  utf8_decode a = Some ta ->
  utf8_decode b = Some tb ->
  utf8_decode (a ++ b) = Some (ta ++ tb).
Proof.
  intros Ha Hb.
  apply (@utf8_decode_app_fuel (length a));
    [apply Nat.le_refl | exact Ha | exact Hb].
Qed.

(** Newline translation is compositional over a split after ["\n"]. *)
Lemma translate_newlines_app_fuel (n : nat) :
  forall a b,
    length a <= n ->
    translate_newlines ((a ++ nl) ++ b)
    = translate_newlines (a ++ nl) ++ translate_newlines b.
Proof.
  unfold nl. induction n as [| n IH]; intros a b Hn.
  - destruct a; [reflexivity | simpl in Hn; lia].
  - destruct a as [| c t]; [reflexivity |].
    cbn [app translate_newlines]. destruct (c =? 13)%N.
    + destruct t as [| c' t']; [reflexivity |].
      cbn [app]. destruct (c' =? 10)%N.
      * rewrite IH by (simpl in *; lia). reflexivity.
      * change (c' :: (t' ++ [10%N]) ++ b)
          with (((c' :: t') ++ [10%N]) ++ b).
        rewrite IH by (simpl in *; lia). reflexivity.
    + rewrite IH by (simpl in *; lia). reflexivity.
Qed.

Lemma translate_newlines_ends (n : nat) :
  forall a, length a <= n ->
    exists z, translate_newlines (a ++ nl) = z ++ nl.
Proof.
  unfold nl. induction n as [| n IH]; intros a Hn.
  - destruct a; [now exists [] | simpl in Hn; lia].
  - destruct a as [| c t]; [now exists [] |].
    cbn [app translate_newlines]. destruct (c =? 13)%N.
    + destruct t as [| c' t']; [now exists [] |].
      cbn [app]. destruct (c' =? 10)%N.
      * destruct (IH t') as [z Hz]; [simpl in *; lia |].
        exists (10%N :: z). now rewrite Hz.
      * destruct (IH (c' :: t')) as [z Hz]; [simpl in *; lia |].
        exists (10%N :: z). cbn [app] in Hz. now rewrite Hz.
    + destruct (IH t) as [z Hz]; [simpl in *; lia |].
      exists (c :: z). now rewrite Hz.
Qed.

Lemma split_lines_app (x y : pystr) :
  forall cur,
    split_lines cur ((x ++ nl) ++ y)
    = split_lines cur (x ++ nl) ++ split_lines [] y.
Proof.
  unfold nl. induction x as [| c t IH]; intros cur; [reflexivity |].
  cbn [app split_lines]. destruct (c =? 10)%N.
  - rewrite IH. reflexivity.
  - apply IH.
Qed.

Lemma readlines_app (a b : pystr) :
  readlines ((a ++ nl) ++ b) = readlines (a ++ nl) ++ readlines b.
Proof.
  unfold readlines.
  rewrite (translate_newlines_app_fuel (n := length a)) by apply Nat.le_refl.
  destruct (translate_newlines_ends (n := length a) a (Nat.le_refl _))
    as [z ->].
  apply split_lines_app.
Qed.

End PollSplit.

(** A line written in two pieces and polled in between is seen as two
    lines: here neither piece matches, and the match is lost. *)
Example line_split_between_polls :
  let fs := filters sample_bot in
  matched_entries fs (readlines (py "ERROR disk full" ++ nl))
  = [py "[ERROR]" ++ nl ++ py "ERROR disk full"]
  /\ matched_entries fs (readlines (py "ERR"))
     ++ matched_entries fs (readlines (py "OR disk full" ++ nl))
     = [].
Proof. split; reflexivity. Qed.

(** ** Further properties: the header of a cut message *)

(** X12: cutting a message never touches its header: whenever the
    header itself has at most 4000 characters, the message starts with
    the whole header, so it announces the full number of entries even
    when the text of some of them was cut away. *)
Theorem header_survives_truncation (timestamp : pystr) (logs : list pystr) :
  length (batch_header timestamp logs) <= 4000 ->
  firstn (length (batch_header timestamp logs))
         (format_log_batch_at timestamp logs)
  = batch_header timestamp logs.
Proof.
  intros Hh. unfold format_log_batch_at, natural_message.
  set (header := batch_header timestamp logs) in *.
  set (body := join (nl ++ nl) logs).
  assert (Hpre : firstn (length header) (header ++ body) = header).
  { rewrite firstn_app, Nat.sub_diag, firstn_all, firstn_O.
    apply app_nil_r. }
  destruct (Nat.le_gt_cases (length (header ++ body)) 4000) as [Hs | Hl].
  - rewrite (truncate_short _ Hs). exact Hpre.
  - rewrite (truncate_long _ Hl), firstn_app, length_firstn.
    replace (length header - Nat.min 4000 (length (header ++ body)))
      with 0 by lia.
    rewrite firstn_O, app_nil_r, firstn_firstn.
    replace (Nat.min (length header) 4000) with (length header) by lia.
    exact Hpre.
Qed.

Lemma header_survives_truncation_witness :
  let header := batch_header sample_timestamp cut_batch in
  length header <= 4000
  /\ 4000 < length (natural_message sample_timestamp cut_batch)
  /\ firstn (length header) (format_log_batch_at sample_timestamp cut_batch)
     = header
  /\ is_infix (py "Записей: 2") header = true.
Proof.
  intros header.
  assert (Hh : length header <= 4000) by (vm_compute; lia).
  split; [exact Hh | split; [vm_compute; lia | split]].
  - exact (@header_survives_truncation sample_timestamp cut_batch Hh).
  - vm_compute. reflexivity.
Defined.

(** ** The first poll *)

Section FirstPoll.

Context {RE : RegexEngine}.
Variable E : Env.

Lemma init_fresh (config : Config) (now : Z) (s0 : Bot RE) :
  init config now = inr s0 ->
  last_position s0 = 0 /\ pending_logs s0 = [] /\ total_logs_sent s0 = 0.
Proof.
  intros Hi. unfold init in Hi.
  destruct (compile_filters (cfg_filters config)) as [e | fs];
    [discriminate |].
  injection Hi as <-. repeat split.
Qed.

(** The result of a flush that is made with entries pending. *)
Lemma flush_of_pending (s : Bot RE) (w : World) :
  pending_logs s <> [] ->
  let r := ignore (send_pending_logs E) s w in
  w_trace (world_of r)
  = EvPost (flush_message E s w) (flush_accepted E s w) :: w_trace w
  /\ (flush_accepted E s w = true ->
      pending_logs (bot_of r) = []
      /\ total_logs_sent (bot_of r)
         = total_logs_sent s + length (pending_logs s))
  /\ (flush_accepted E s w = false -> bot_of r = s).
Proof.
  intros Hne r. unfold r, ignore, bind, ret.
  destruct (flush_accepted E s w) eqn:Ha.
  - rewrite (send_pending_logs_accepted E s w Hne Ha).
    rewrite bot_of_tuple, world_of_tuple.
    split; [reflexivity |].
    split; [intros _; split; reflexivity | discriminate].
  - rewrite (send_pending_logs_refused E s w Hne Ha).
    rewrite bot_of_tuple, world_of_tuple.
    split; [reflexivity |].
    split; [discriminate | intros _; reflexivity].
Qed.

Lemma time_due_pending (now : Z) (s : Bot RE) :
  time_due now s = true -> pending_logs s <> [].
Proof.
  unfold time_due. destruct (pending_logs s); [discriminate |].
  intros _. discriminate.
Qed.

(** C9: a bot built by [__init__] starts with offset 0 and no pending
    entry, so its first poll that can read the file decodes the whole
    file: it records a read from offset 0, runs the line loop over all
    lines of the file, appends every non-empty stripped line that
    matches a filter, stores the file's length as the offset and goes
    through the same size test and flush as any other poll.  The
    entries of that old content are delivered as any others are: when
    they reach [batch_size] the poll posts the batch made of them, and
    otherwise the time test of the iteration posts it once
    [batch_timeout] has passed; an accepted post counts them in
    [total_logs_sent] and empties the pending entries. *)
Theorem first_poll_reads_whole_file (config : Config) (now : Z)
  (s0 : Bot RE) :
  init config now = inr s0 ->
  last_position s0 = 0
  /\ pending_logs s0 = []
  /\ forall w c text,
       env_file E (w_step w) = Present c ->
       utf8_decode c = Some text ->
       let s1 := after_lines s0 c text in
       let w1 := polled (EvRead 0 c) w in
       process_new_lines E s0 w
       = when (size_due s1) (ignore (send_pending_logs E)) s1 w1
       /\ last_position s1 = length c
       /\ pending_logs s1
          = fold_left (process_line (filters s0)) (readlines text) []
       /\ (forall raw name,
            In raw (readlines text) ->
            strip raw <> [] ->
            check_log_match (filters s0) (strip raw) = (true, Some name) ->
            In (py "[" ++ name ++ py "]" ++ nl ++ strip raw)
               (pending_logs s1))
       /\ (size_due s1 = true -> pending_logs s1 <> [] ->
           let r := process_new_lines E s0 w in
           w_trace (world_of r)
           = EvPost (format_log_batch_at (env_strftime E (w_step w1))
                       (pending_logs s1))
                    (flush_accepted E s1 w1)
             :: EvRead 0 c :: w_trace w
           /\ (flush_accepted E s1 w1 = true ->
               pending_logs (bot_of r) = []
               /\ total_logs_sent (bot_of r) = length (pending_logs s1))
           /\ (flush_accepted E s1 w1 = false -> bot_of r = s1))
       /\ (size_due s1 = false ->
           let w2 := {| w_step := S (w_step w1); w_trace := w_trace w1 |} in
           time_due (env_time E (w_step w1)) s1 = true ->
           let r := loop_iteration E s0 w in
           w_trace (world_of r)
           = EvSleep (check_interval s1)
             :: EvPost (format_log_batch_at (env_strftime E (w_step w2))
                          (pending_logs s1))
                       (flush_accepted E s1 w2)
             :: EvRead 0 c :: w_trace w
           /\ (flush_accepted E s1 w2 = true ->
               pending_logs (bot_of r) = []
               /\ total_logs_sent (bot_of r) = length (pending_logs s1))
           /\ (flush_accepted E s1 w2 = false -> bot_of r = s1)).
Proof.
  intros Hi.
  destruct (init_fresh config now Hi) as (Hp & Hq & Ht).
  split; [exact Hp |]. split; [exact Hq |].
  intros w c text Hf Hd s1 w1.
  assert (Hd' : utf8_decode (skipn (last_position s0) c) = Some text)
    by (rewrite Hp; exact Hd).
  assert (Hq1 : pending_logs s1
                = fold_left (process_line (filters s0)) (readlines text) []).
  { unfold s1, after_lines.
    cbn [pending_logs set_last_position set_pending_logs].
    rewrite Hq. reflexivity. }
  assert (Ht1 : total_logs_sent s1 = 0) by exact Ht.
  assert (Hrun : process_new_lines E s0 w
                 = when (size_due s1) (ignore (send_pending_logs E)) s1 w1).
  { rewrite (process_new_lines_read E s0 w Hf Hd'). unfold w1.
    rewrite Hp. reflexivity. }
  split; [exact Hrun |]. split; [| split; [exact Hq1 | split; [| split]]].
  - unfold s1, after_lines, tell_after_read.
    cbn [last_position set_last_position]. rewrite Hp. apply Nat.max_0_l.
  - intros raw name Hin Hne Hm. rewrite Hq1.
    now apply fold_process_line_collects.
  - intros Hsize Hne r. unfold r. rewrite Hrun, Hsize. cbn [when].
    destruct (flush_of_pending s1 w1 Hne) as (F1 & F2 & F3).
    split; [exact F1 | split; [| exact F3]].
    intros Ha. destruct (F2 Ha) as [G1 G2]. split; [exact G1 |].
    rewrite G2, Ht1. reflexivity.
  - intros Hsize w2 Htime r. unfold r.
    rewrite loop_iteration_run. cbn zeta.
    rewrite Hrun, Hsize. cbn [when].
    change (ret tt s1 w1) with (tt, s1, w1).
    rewrite !bot_of_tuple, !world_of_tuple.
    fold w2. rewrite Htime. cbn [when].
    destruct (flush_of_pending s1 w2 (time_due_pending _ _ Htime))
      as (F1 & F2 & F3).
    cbn [w_trace]. rewrite F1.
    split; [reflexivity | split; [| exact F3]].
    intros Ha. destruct (F2 Ha) as [G1 G2]. split; [exact G1 |].
    rewrite G2, Ht1. reflexivity.
Qed.

End FirstPoll.

Lemma first_poll_reads_whole_file_witness :
  let entry1 := py "[ERROR]" ++ nl ++ py "ERROR disk full" in
  let entry2 := py "[ERROR]" ++ nl ++ py "ERROR timeout" in
  let r := process_new_lines grown_env sample_bot world0 in
  let r' := loop_iteration late_env sample_bot world0 in
  init sample_config 100 = inr sample_bot
  /\ last_position sample_bot = 0
  /\ w_trace (world_of r)
     = [EvPost (format_log_batch_at sample_timestamp [entry1; entry2]) true;
        EvRead 0 sample_log_2]
  /\ pending_logs (bot_of r) = []
  /\ total_logs_sent (bot_of r) = 2
  /\ w_trace (world_of r')
     = [EvSleep 1;
        EvPost (format_log_batch_at sample_timestamp [entry1]) true;
        EvRead 0 sample_log_1]
  /\ total_logs_sent (bot_of r') = 1.
Proof.
  intros entry1 entry2 r r'.
  assert (Hi : init sample_config 100 = inr sample_bot) by reflexivity.
  destruct (first_poll_reads_whole_file grown_env sample_config 100 Hi)
    as (H1 & _ & H3).
  destruct (first_poll_reads_whole_file late_env sample_config 100 Hi)
    as (_ & _ & H3').
  assert (Hf : env_file grown_env (w_step world0) = Present sample_log_2)
    by reflexivity.
  assert (Hd : utf8_decode sample_log_2
               = Some (sample_text_1 ++ sample_text_2)) by reflexivity.
  assert (Hf' : env_file late_env (w_step world0) = Present sample_log_1)
    by reflexivity.
  assert (Hd' : utf8_decode sample_log_1 = Some sample_text_1)
    by reflexivity.
  destruct (H3 world0 sample_log_2 _ Hf Hd) as (_ & _ & _ & _ & Hsize & _).
  destruct (H3' world0 sample_log_1 _ Hf' Hd') as (_ & _ & _ & _ & _ & Htime).
  assert (Hne : pending_logs
                  (after_lines sample_bot sample_log_2
                     (sample_text_1 ++ sample_text_2)) <> [])
    by (vm_compute; discriminate).
  destruct (Hsize eq_refl Hne) as (S1 & S2 & _).
  destruct (Htime eq_refl eq_refl) as (T1 & T2 & _).
  destruct (S2 eq_refl) as [S3 S4].
  destruct (T2 eq_refl) as [_ T4].
  split; [exact Hi | split; [exact H1 |]].
  split; [exact S1 | split; [exact S3 | split; [exact S4 |]]].
  split; [exact T1 | exact T4].
Defined.

(** ** Further properties: two polls and one *)

Section TwoPolls.

Context {RE : RegexEngine}.
Variable E : Env.

Lemma matched_entries_app (fs : list (Filter RE)) (l1 l2 : list pystr) :
  matched_entries fs (l1 ++ l2)
  = matched_entries fs l1 ++ matched_entries fs l2.
Proof. unfold matched_entries. apply flat_map_app. Qed.

(** Two line loops in a row, with nothing in between. *)
Lemma after_lines_compose (s : Bot RE) (c1 d : list byte) (t1 t2 : pystr) :
  last_position s <= length c1 ->
  after_lines (after_lines s c1 (t1 ++ nl)) (c1 ++ d) t2
  = after_lines s (c1 ++ d) ((t1 ++ nl) ++ t2).
Proof.
  intros Hle. unfold after_lines.
  unfold set_last_position, set_pending_logs.
  cbn [log_file filters check_interval batch_size batch_timeout
       last_position pending_logs last_send_time total_logs_sent].
  rewrite readlines_app, fold_left_app. unfold tell_after_read.
  rewrite length_app. f_equal. lia.
Qed.

(** What an iteration that read [c] leaves, whatever it flushed. *)
Lemma loop_iteration_after_read (s : Bot RE) (w : World) (c : list byte)
  (text : pystr) :
  env_file E (w_step w) = Present c ->
  utf8_decode (skipn (last_position s) c) = Some text ->
  let s1 := bot_of (loop_iteration E s w) in
  filters s1 = filters s
  /\ last_position s1 = tell_after_read (last_position s) (length c)
  /\ total_logs_sent s1 + length (pending_logs s1)
     = total_logs_sent s + length (pending_logs s)
       + length (matched_entries (filters s) (readlines text))
  /\ (always_refused E -> s1 = after_lines s c text).
Proof.
  intros Hf Hd s1. unfold s1. rewrite loop_iteration_run. cbn zeta.
  rewrite bot_of_tuple.
  rewrite (process_new_lines_read E s w Hf Hd).
  set (sa := after_lines s c text).
  set (wa := polled (EvRead (last_position s) c) w).
  destruct (when_flush_summary E (size_due sa) sa wa) as (A1 & A2 & A3 & _).
  destruct (when_flush_effect E (size_due sa) sa wa)
    as (_ & _ & _ & _ & _ & A4 & _).
  set (rp := when (size_due sa) (ignore (send_pending_logs E)) sa wa) in *.
  set (wb := {| w_step := S (w_step (world_of rp));
                w_trace := w_trace (world_of rp) |}).
  set (b := time_due (env_time E (w_step (world_of rp))) (bot_of rp)).
  destruct (when_flush_summary E b (bot_of rp) wb) as (B1 & B2 & B3 & _).
  destruct (when_flush_effect E b (bot_of rp) wb)
    as (_ & _ & _ & _ & _ & B4 & _).
  assert (Hpa : pending_logs sa
                = pending_logs s
                  ++ matched_entries (filters s) (readlines text))
    by apply fold_process_line_app.
  split; [now rewrite B1, A1 |]. split; [now rewrite B4, A4 |]. split.
  - rewrite B2, A2, Hpa, length_app.
    change (total_logs_sent sa) with (total_logs_sent s). lia.
  - intros Hr. now rewrite (B3 Hr), (A3 Hr).
Qed.

(** X10: reading a grown file in two polls, split at the end of a line,
    produces the entries one poll would produce, whatever is flushed in
    between.  After an iteration of the loop that decoded a text ending
    in ["\n"] from the file [c1], a poll of the file grown by bytes [d]
    that decode on their own decodes exactly the text of [d] and runs
    the line loop on the state the iteration left; the entries of the
    two texts, one after the other, are the entries of the whole text;
    the offset stored is the one a single poll of the grown file stores;
    and [total_logs_sent] plus the number of pending entries is what it
    is after that single poll.  When nothing was flushed in between
    (so when every post is refused) the whole state is the same. *)
Theorem two_polls_as_one (s : Bot RE) (w : World) (c1 d : list byte)
  (t1 t2 : pystr) :
  env_file E (w_step w) = Present c1 ->
  last_position s <= length c1 ->
  utf8_decode (skipn (last_position s) c1) = Some (t1 ++ nl) ->
  utf8_decode d = Some t2 ->
  let fs := filters s in
  let s1 := bot_of (loop_iteration E s w) in
  let one := after_lines s (c1 ++ d) ((t1 ++ nl) ++ t2) in
  utf8_decode (skipn (last_position s) (c1 ++ d)) = Some ((t1 ++ nl) ++ t2)
  /\ matched_entries fs (readlines ((t1 ++ nl) ++ t2))
     = matched_entries fs (readlines (t1 ++ nl))
       ++ matched_entries fs (readlines t2)
  /\ forall w2,
       env_file E (w_step w2) = Present (c1 ++ d) ->
       let s2 := after_lines s1 (c1 ++ d) t2 in
       process_new_lines E s1 w2
       = when (size_due s2) (ignore (send_pending_logs E))
              s2 (polled (EvRead (length c1) (c1 ++ d)) w2)
       /\ pending_logs s2
          = pending_logs s1 ++ matched_entries fs (readlines t2)
       /\ last_position s2 = last_position one
       /\ total_logs_sent s2 + length (pending_logs s2)
          = total_logs_sent one + length (pending_logs one)
       /\ (s1 = after_lines s c1 (t1 ++ nl) -> s2 = one)
       /\ (always_refused E -> s2 = one).
Proof.
  intros Hf Hle Hd1 Hd2 fs s1 one.
  destruct (loop_iteration_after_read s w Hf Hd1) as (L1 & L2 & L3 & L4).
  fold s1 in L1, L2, L3, L4.
  assert (Hp1 : last_position s1 = length c1)
    by (rewrite L2; unfold tell_after_read; lia).
  assert (Hent : matched_entries fs (readlines ((t1 ++ nl) ++ t2))
                 = matched_entries fs (readlines (t1 ++ nl))
                   ++ matched_entries fs (readlines t2))
    by (rewrite readlines_app; apply matched_entries_app).
  split; [| split; [exact Hent |]].
  - rewrite skipn_app. replace (last_position s - length c1) with 0 by lia.
    cbn [skipn]. now apply utf8_decode_app.
  - intros w2 Hf2 s2.
    assert (Hd' : utf8_decode (skipn (last_position s1) (c1 ++ d)) = Some t2)
      by (rewrite Hp1, skipn_app, skipn_all, Nat.sub_diag; exact Hd2).
    assert (Hps2 : pending_logs s2
                   = pending_logs s1 ++ matched_entries fs (readlines t2)).
    { unfold s2, after_lines.
      cbn [pending_logs set_last_position set_pending_logs].
      rewrite L1. apply fold_process_line_app. }
    assert (Hpone : pending_logs one
                    = pending_logs s
                      ++ matched_entries fs (readlines ((t1 ++ nl) ++ t2)))
      by apply fold_process_line_app.
    assert (Hsame : s1 = after_lines s c1 (t1 ++ nl) -> s2 = one).
    { intros Heq. unfold s2. rewrite Heq.
      now apply after_lines_compose. }
    split; [| split; [exact Hps2 | split; [| split; [| split]]]].
    + rewrite (process_new_lines_read E s1 w2 Hf2 Hd'), Hp1. reflexivity.
    + unfold s2, one, after_lines, tell_after_read.
      cbn [last_position set_last_position]. rewrite Hp1, length_app. lia.
    + rewrite Hps2, Hpone, Hent, !length_app.
      change (total_logs_sent s2) with (total_logs_sent s1).
      change (total_logs_sent one) with (total_logs_sent s).
      fold fs in L3. lia.
    + exact Hsame.
    + intros Hr. apply Hsame, L4, Hr.
Qed.

End TwoPolls.

Lemma two_polls_as_one_witness :
  let entry1 := py "[ERROR]" ++ nl ++ py "ERROR disk full" in
  let entry2 := py "[ERROR]" ++ nl ++ py "ERROR timeout" in
  let r1 := loop_iteration sample_env eager_bot world0 in
  let s1 := bot_of r1 in
  let s2 := after_lines s1 sample_log_2 sample_text_2 in
  let one := after_lines eager_bot sample_log_2
                         (sample_text_1 ++ sample_text_2) in
  total_logs_sent s1 = 1
  /\ pending_logs s1 = []
  /\ process_new_lines sample_env s1 (world_of r1)
     = when (size_due s2) (ignore (send_pending_logs sample_env))
            s2 (polled (EvRead 24 sample_log_2) (world_of r1))
  /\ pending_logs s2 = [entry2]
  /\ pending_logs one = [entry1; entry2]
  /\ last_position s2 = last_position one
  /\ total_logs_sent s2 + length (pending_logs s2)
     = total_logs_sent one + length (pending_logs one).
Proof.
  intros entry1 entry2 r1 s1 s2 one.
  assert (Hf : env_file sample_env (w_step world0) = Present sample_log_1)
    by reflexivity.
  assert (Hle : last_position eager_bot <= length sample_log_1)
    by apply Nat.le_0_l.
  assert (Hd1 : utf8_decode (skipn (last_position eager_bot) sample_log_1)
                = Some ((py "INFO ok" ++ nl ++ py "ERROR disk full") ++ nl))
    by reflexivity.
  assert (Hd2 : utf8_decode (bytes "ERROR timeout" ++ lf)
                = Some sample_text_2) by reflexivity.
  destruct (@two_polls_as_one literal_engine sample_env eager_bot world0
              sample_log_1 (bytes "ERROR timeout" ++ lf)
              (py "INFO ok" ++ nl ++ py "ERROR disk full") sample_text_2
              Hf Hle Hd1 Hd2) as (_ & _ & H).
  assert (Hf2 : env_file sample_env (w_step (world_of r1))
                = Present (sample_log_1 ++ bytes "ERROR timeout" ++ lf))
    by (vm_compute; reflexivity).
  destruct (H (world_of r1) Hf2) as (P1 & _ & P3 & P4 & _).
  split; [vm_compute; reflexivity |].
  split; [vm_compute; reflexivity |].
  split; [exact P1 |].
  split; [vm_compute; reflexivity |].
  split; [vm_compute; reflexivity |].
  split; [exact P3 | exact P4].
Defined.

(** ** Further properties: how [run] ends *)

Section Shutdown.

Context {RE : RegexEngine}.
Variable E : Env.








End Shutdown.


(** ** A pattern on which [re.compile] raises [OverflowError] *)

(** C3, at the failing input: with a rule whose pattern is
    [a{4294967296}], on which [re.compile] raises [OverflowError] and
    not [re.error], [compile_filters] is left by that exception and
    [__init__] with it, so no filter list is built and nothing is ever
    matched, although the next rule is sound; a rule whose pattern is
    rejected with [re.error] is skipped and the rules after it are
    compiled and match. *)
Theorem compile_filters_overflow_escapes :
  @re_compile literal_engine huge_repeat = CompileRaises (py "OverflowError")
  /\ @compile_filters literal_engine overflow_filters
     = inl (Uncaught (py "OverflowError"))
  /\ @init literal_engine overflow_config 100
     = inl (Uncaught (py "OverflowError"))
  /\ @compile_filters literal_engine mixed_filters = inr mixed_compiled
  /\ check_log_match mixed_compiled (py "12:00 ERROR disk full")
     = (true, Some (py "first")).
Proof. repeat split; reflexivity. Qed.
